(** * tf2 BufferCore: a shallow embedding of [tf2/src/buffer_core.cpp]

    The transform graph of tf2: the frame registry, the per-frame time caches
    behind it, the mutator [setTransform], the two-sided walk [lookupLists],
    the extrapolation test, the chain composition and the latest common time.

    What the file [buffer_core.cpp] includes but does not define is taken as
    an interface: the time cache ([TimeCacheOps]), the Bullet transform
    algebra ([BtTransformOps]) and the legacy [tf::Transformer] that the
    buffer carries along ([LegacyTf]).  The theorems hold for every
    implementation of these interfaces; concrete ones are given for the
    examples. *)

From Stdlib Require Import ZArith SpecFloat Lia.
From stdpp Require Import gmap strings list.

Open Scope Z_scope.

(** ** Clock

    [ros::Time] and [ros::Duration] count nanoseconds; an instant is a
    non-negative integer, a duration a signed one.  [ros::Time()] is the
    zero instant, which the queries read as "latest". *)

Abbreviation Time := Z (only parsing).
Abbreviation Duration := Z (only parsing).

Definition Time_unset : Time := 0.

(** [ros::TIME_MAX] is [Time(UINT_MAX, 999999999)]. *)
Definition TIME_MAX : Time := 4294967295 * 1000000000 + 999999999.

(** A [ros::Duration] keeps its seconds in a signed 32-bit integer: the
    durations are the numbers of nanoseconds from -2^31 s, included, to
    2^31 s, excluded. *)
Definition DURATION_RANGE : Z := 2147483648 * 1000000000.

Definition Duration_wrap (d : Z) : Duration :=
  (d + DURATION_RANGE) mod (2 * DURATION_RANGE) - DURATION_RANGE.

(** [ros::Time::operator-(const ros::Time&)] returns a [ros::Duration]: the
    difference of the two instants when it is a duration, and otherwise the
    duration that differs from it by a multiple of 2^32 s, the 32-bit
    seconds wrapping around. *)
Definition Time_minus (a b : Time) : Duration := Duration_wrap (a - b).

(** ** Messages

    The scalars of [geometry_msgs] are IEEE doubles; [spec_float] keeps the
    class of a double (zero, infinity, NaN, finite), which is all that
    [std::isnan] looks at. *)

Abbreviation scalar := spec_float (only parsing).

Definition isnan (x : scalar) : bool :=
  match x with S754_nan => true | _ => false end.

Definition scalar_zero : scalar := S754_zero false.
Definition scalar_one : scalar := S754_finite false 4503599627370496 (-52).

Record Vector3 := mkVector3 { v_x : scalar; v_y : scalar; v_z : scalar }.
Record Quaternion := mkQuaternion
  { q_x : scalar; q_y : scalar; q_z : scalar; q_w : scalar }.
Record Transform := mkTransform
  { translation : Vector3; rotation : Quaternion }.
Record Header := mkHeader { stamp : Time; frame_id : string }.
Record TransformStamped := mkTransformStamped
  { header : Header; child_frame_id : string; transform : Transform }.

(** [setIdentity(geometry_msgs::Transform&)] *)
Definition setIdentity : Transform :=
  mkTransform (mkVector3 scalar_zero scalar_zero scalar_zero)
              (mkQuaternion scalar_zero scalar_zero scalar_zero scalar_one).

(** Modelled from the spec: the enumeration of extrapolation modes is declared
    in a header that is not among the sources; the names are those of the
    specification of the time cache. *)
Inductive ExtrapolationMode :=
| EXACT | INTERPOLATED | EXTRAPOLATE_BACK | EXTRAPOLATE_FORWARD | ONE_VALUE
| EMPTY.

Global Instance ExtrapolationMode_eq_dec : EqDecision ExtrapolationMode.
Proof. solve_decision. Defined.

(** [TransformStorage] extends the stamped message with the number of the
    parent frame and the mode under which the cache produced the sample. *)
Record TransformStorage := mkTransformStorage
  { msg : TransformStamped; frame_id_num_ : nat; mode_ : ExtrapolationMode }.

(** The constructor [TransformStorage(data, parent_id)]; [mode_] is assigned
    by the cache when it hands a sample out. *)
Definition TransformStorage_of (data : TransformStamped) (parent_id : nat)
  : TransformStorage :=
  mkTransformStorage data parent_id ONE_VALUE.

Definition ts_stamp (tr : TransformStorage) : Time := stamp (header (msg tr)).
Definition ts_frame_id (tr : TransformStorage) : string :=
  frame_id (header (msg tr)).
Definition ts_child (tr : TransformStorage) : string := child_frame_id (msg tr).
Definition ts_transform (tr : TransformStorage) : Transform :=
  transform (msg tr).

Record TransformLists := mkTransformLists
  { inverseTransforms : list TransformStorage;
    forwardTransforms : list TransformStorage }.

(** [tf2_msgs::TF2Error] *)
Inductive TF2Error :=
| NO_ERROR | LOOKUP_ERROR | CONNECTIVITY_ERROR | EXTRAPOLATION_ERROR
| INVALID_ARGUMENT_ERROR.

Global Instance TF2Error_eq_dec : EqDecision TF2Error.
Proof. solve_decision. Defined.

(** ** Collaborators *)

(** [tf2::TimeCache]: [getData] answers [None] where the C++ returns false. *)
Class TimeCacheOps (TC : Type) := {
  TimeCache_new : Duration → Duration → TC;
  insertData : TC → TransformStorage → bool * TC;
  getData : TC → Time → option TransformStorage
}.

(** [btTransform] and the conversions between it and the message. *)
Class BtTransformOps (bt : Type) := {
  bt_identity : bt;
  bt_mul : bt → bt → bt;
  bt_inverse : bt → bt;
  transformMsgToBT : Transform → bt;
  transformMsgToTF2 : Transform → bt;
  transformTF2ToMsg : bt → Transform
}.

(** The legacy [tf::Transformer] kept in [old_tf_]. *)
Class LegacyTf (OT : Type) := {
  old_new : Duration → OT;
  old_setTransform : OT → TransformStamped → string → bool * OT;
  old_canTransform : OT → string → string → Time → bool
}.

(** ** Outcomes

    A call returns, throws, or goes wrong: a failed [ROS_ASSERT], a null
    [TimeCache*] that is dereferenced, an index beyond a vector.
    [Diverged] is the result of a loop of the model that runs out of fuel;
    [walk_total] shows that the walk never produces it. *)

Inductive diagnostic :=
| diag_no_source (name : string)
  (* Source frame '<name>' does not exist is tf tree. *)
| diag_no_target (name : string)
  (* Target frame '<name>' does not exist is tf tree. *)
| diag_loop (frames : list (string * string))
  (* The tf tree is invalid because it contains a loop. <allFramesAsString> *)
| diag_unconnected (target source : string)
  (* Could not find a connection between '<target>' and '<source>' ... *)
| diag_no_frame (name : string)
  (* Frame id <name> does not exist! *)
| diag_reverse (id : nat)
  (* Reverse lookup of frame id <id> failed! *)
| diag_one_value (t at_ : Time)
  (* ... the tf buffer only contains a single transform at time <at> *)
| diag_past (t at_ : Time)
  (* Extrapolating into the past. ... *)
| diag_future (t at_ : Time)
  (* Extrapolating into the future. ... *)
| diag_no_common_time (source target : string).
  (* Could not find a common time <source> and <target>. *)

Inductive exn :=
| tf_LookupException (what : diagnostic)
| tf2_LookupException (what : option diagnostic)
| tf2_ConnectivityException (what : option diagnostic)
| tf2_ExtrapolationException (what : option diagnostic).

Inductive fault := AssertionFailed | NullDereference | OutOfBounds | Diverged.

Inductive outcome (A : Type) :=
| Ret (a : A)
| Throw (e : exn)
| Fault (f : fault).
Arguments Ret {A} a.
Arguments Throw {A} e.
Arguments Fault {A} f.

Global Instance outcome_ret : MRet outcome := λ A a, Ret a.
Global Instance outcome_bind : MBind outcome := λ A B k m,
  match m with
  | Ret a => k a
  | Throw e => Throw e
  | Fault f => Fault f
  end.

(** [try { m } catch (tf::LookupException& ex) { h(ex.what()) }] *)
Definition catch_tf_lookup {A} (m : outcome A) (h : diagnostic → outcome A)
  : outcome A :=
  match m with
  | Throw (tf_LookupException what) => h what
  | _ => m
  end.

(** ** The buffer *)

Record BufferCore (TC OT : Type) := mkBufferCore {
  cache_time : Duration;
  max_extrapolation_distance_ : Duration;
  frameIDs_ : gmap string nat;
  frames_ : list (option TC);
  frameIDs_reverse : list string;
  frame_authority_ : gmap nat string;
  old_tf_ : OT
}.
Arguments mkBufferCore {TC OT}.
Arguments cache_time {TC OT}.
Arguments max_extrapolation_distance_ {TC OT}.
Arguments frameIDs_ {TC OT}.
Arguments frames_ {TC OT}.
Arguments frameIDs_reverse {TC OT}.
Arguments frame_authority_ {TC OT}.
Arguments old_tf_ {TC OT}.

Section Buffer.

Context {TC OT bt : Type}.
Context `{!TimeCacheOps TC, !LegacyTf OT, !BtTransformOps bt}.

(** Constants of [buffer_core.h]. *)
Variable MAX_GRAPH_DEPTH : nat.
Variable DEFAULT_MAX_EXTRAPOLATION_DISTANCE : Duration.

Abbreviation Buffer := (BufferCore TC OT).

Definition set_old_tf (s : Buffer) (o : OT) : Buffer :=
  mkBufferCore (cache_time s) (max_extrapolation_distance_ s) (frameIDs_ s)
    (frames_ s) (frameIDs_reverse s) (frame_authority_ s) o.

Definition set_frames (s : Buffer) (fs : list (option TC)) : Buffer :=
  mkBufferCore (cache_time s) (max_extrapolation_distance_ s) (frameIDs_ s)
    fs (frameIDs_reverse s) (frame_authority_ s) (old_tf_ s).

Definition set_frame_authority (s : Buffer) (a : gmap nat string) : Buffer :=
  mkBufferCore (cache_time s) (max_extrapolation_distance_ s) (frameIDs_ s)
    (frames_ s) (frameIDs_reverse s) a (old_tf_ s).

(** The part of the buffer that the new implementation owns: the registry,
    the caches and the authorities (everything but the legacy transformer). *)
Definition tf2_state (s : Buffer)
  : gmap string nat * list (option TC) * list string * gmap nat string :=
  (frameIDs_ s, frames_ s, frameIDs_reverse s, frame_authority_ s).

(** [BufferCore::BufferCore(cache_time)].  The argument goes to the legacy
    transformer only: the member [cache_time] is not in the initializer list
    and stays the default duration, zero. *)
Definition BufferCore_new (cache_time : Duration) : Buffer :=
  mkBufferCore 0 DEFAULT_MAX_EXTRAPOLATION_DISTANCE
    (<["NO_PARENT" := 0%nat]> ∅) [None] ["NO_PARENT"] ∅ (old_new cache_time).

(** [BufferCore::getFrame]: null for frame 0, [frames_[frame_id]] otherwise;
    the index is not checked. *)
Definition getFrame (s : Buffer) (frame_id : nat) : outcome (option TC) :=
  if (frame_id =? 0)%nat then Ret None
  else match frames_ s !! frame_id with
       | Some pointer => Ret pointer
       | None => Fault OutOfBounds
       end.

(** [BufferCore::lookupFrameNumber] *)
Definition lookupFrameNumber (s : Buffer) (frameid_str : string)
  : outcome nat :=
  match frameIDs_ s !! frameid_str with
  | None => Throw (tf_LookupException (diag_no_frame frameid_str))
  | Some retval => Ret retval
  end.

(** [BufferCore::lookupOrInsertFrameNumber] *)
Definition lookupOrInsertFrameNumber (s : Buffer) (frameid_str : string)
  : nat * Buffer :=
  match frameIDs_ s !! frameid_str with
  | None =>
      let retval := length (frames_ s) in
      (retval,
       mkBufferCore (cache_time s) (max_extrapolation_distance_ s)
         (<[frameid_str := retval]> (frameIDs_ s))
         (frames_ s ++
            [Some (TimeCache_new (cache_time s)
                                 (max_extrapolation_distance_ s))])
         (frameIDs_reverse s ++ [frameid_str])
         (frame_authority_ s) (old_tf_ s))
  | Some retval => (retval, s)
  end.

(** [BufferCore::lookupFrameString] *)
Definition lookupFrameString (s : Buffer) (frame_id_num : nat)
  : outcome string :=
  match frameIDs_reverse s !! frame_id_num with
  | None => Throw (tf2_LookupException (Some (diag_reverse frame_id_num)))
  | Some name => Ret name
  end.

(** The four tests of [setTransform]; each sets [error_exists]. *)
Definition has_nan (t : Transform) : bool :=
  isnan (v_x (translation t)) || isnan (v_y (translation t))
  || isnan (v_z (translation t))
  || isnan (q_x (rotation t)) || isnan (q_y (rotation t))
  || isnan (q_z (rotation t)) || isnan (q_w (rotation t)).

Definition error_exists (transform_in : TransformStamped) : bool :=
  let e := false in
  let e :=
    if String.eqb (child_frame_id transform_in) (frame_id (header transform_in))
    then true else e in
  let e :=
    if String.eqb (child_frame_id transform_in) "/"
       || String.eqb (child_frame_id transform_in) ""
    then true else e in
  let e :=
    if String.eqb (frame_id (header transform_in)) "/"
       || String.eqb (frame_id (header transform_in)) ""
    then true else e in
  let e := if has_nan (transform transform_in) then true else e in
  e.

(** [BufferCore::setTransform].  The legacy transformer is fed first; its
    answer is only printed.  The child is numbered before the parent; the
    cache pointer is the same whether it is read before or after the parent
    is numbered, since numbering only appends. *)
Definition setTransform (s : Buffer) (transform_in : TransformStamped)
    (authority : string) : outcome (bool * Buffer) :=
  let s :=
    set_old_tf s (old_setTransform (old_tf_ s) transform_in authority).2 in
  if error_exists transform_in then Ret (false, s)
  else
    let '(frame_number, s) :=
      lookupOrInsertFrameNumber s (child_frame_id transform_in) in
    let '(parent_number, s) :=
      lookupOrInsertFrameNumber s (frame_id (header transform_in)) in
    pointer ← getFrame s frame_number;
    match pointer with
    | None => Fault NullDereference
    | Some cache =>
        let '(inserted, cache) :=
          insertData cache (TransformStorage_of transform_in parent_number) in
        let s := set_frames s (<[frame_number := Some cache]> (frames_ s)) in
        if inserted
        then Ret (true,
                  set_frame_authority s
                    (<[frame_number := authority]> (frame_authority_ s)))
        else Ret (false, s)
    end.

(** *** The two-sided walk *)

(** One side of the walk ends at a frame whose cache has nothing for the
    time, or is given up as too deep; the steps pushed so far are kept in
    both cases. *)
Inductive walk_result :=
| Terminated (steps : list TransformStorage) (last : nat)
| TooDeep (steps : list TransformStorage).

(** The [while (true)] loop of one side.  [counter++ > MAX_GRAPH_DEPTH]
    compares the value before the increment. *)
Fixpoint walk_loop (fuel : nat) (s : Buffer) (time : Time)
    (frame counter : nat) (steps : list TransformStorage)
  : outcome walk_result :=
  match fuel with
  | O => Fault Diverged
  | S fuel =>
      pointer ← getFrame s frame;
      match pointer with
      | None => Fault AssertionFailed
      | Some cache =>
          match getData cache time with
          | None => Ret (Terminated steps frame)
          | Some temp =>
              if (frame =? 0)%nat then Ret (Terminated steps frame)
              else
                let steps := steps ++ [temp] in
                let frame := frame_id_num_ temp in
                if (MAX_GRAPH_DEPTH <? counter)%nat
                then Ret (TooDeep steps)
                else walk_loop fuel s time frame (S counter) steps
          end
      end
  end.

Definition walk (s : Buffer) (time : Time) (frame : nat)
  : outcome walk_result :=
  walk_loop (S (S MAX_GRAPH_DEPTH)) s time frame 0 [].

(** [BufferCore::allFramesAsString]: one line "Frame <child> exists with
    parent <parent>." per frame, kept as the pair of names.  The walk calls
    it for its message, which [lookupTransform] always asks for. *)
Definition allFramesAsString (s : Buffer) : outcome (list (string * string)) :=
  mapM (λ counter : nat,
          pointer ← getFrame s counter;
          match pointer with
          | None => Fault NullDereference
          | Some cache =>
              let frame_id_num :=
                match getData cache Time_unset with
                | Some temp => frame_id_num_ temp
                | None => 0%nat
                end in
              match frameIDs_reverse s !! counter,
                    frameIDs_reverse s !! frame_id_num with
              | Some child, Some parent => Ret (child, parent)
              | _, _ => Fault OutOfBounds
              end
          end)
       (seq 1 (length (frames_ s) - 1)).

Record lookup_result := mkLookupResult {
  retval : TF2Error;
  lists : TransformLists;
  error_string : option diagnostic
}.

(** The result with the two vectors given back to front. *)
Definition result_rev (code : TF2Error) (ri rf : list TransformStorage)
    (what : option diagnostic) : lookup_result :=
  mkLookupResult code (mkTransformLists (reverse ri) (reverse rf)) what.

(** The loop that pops the steps both sides share.  It works at the back of
    both vectors, so it runs here on the reversed lists; [back()] of an empty
    vector is out of bounds. *)
Fixpoint pop_loop (s : Buffer) (ri rf : list TransformStorage)
  : outcome lookup_result :=
  match ri, rf with
  | i :: ri', f :: rf' =>
      catch_tf_lookup
        (a ← lookupFrameNumber s (ts_child i);
         b ← lookupFrameNumber s (ts_child f);
         if (a =? b)%nat then
           match ri', rf' with
           | [], _ | _, [] => Ret (result_rev NO_ERROR ri' rf' None)
           | _, _ => pop_loop s ri' rf'
           end
         else Ret (result_rev NO_ERROR ri rf None))
        (λ what, Ret (result_rev LOOKUP_ERROR ri rf (Some what)))
  | _, _ => Fault OutOfBounds
  end.

(** The part of [lookupLists] after both sides have terminated. *)
Definition connect (s : Buffer) (target_frame source_frame : nat)
    (inv : list TransformStorage) (last_inverse : nat)
    (fwd : list TransformStorage) (last_forward : nat)
  : outcome lookup_result :=
  target_name ← lookupFrameString s target_frame;
  source_name ← lookupFrameString s source_frame;
  let connectivity_error := diag_unconnected target_name source_name in
  let both := mkTransformLists inv fwd in
  let unconnected :=
    Ret (mkLookupResult CONNECTIVITY_ERROR both (Some connectivity_error)) in
  match reverse inv, reverse fwd with
  | [], [] => unconnected
  | [], _ :: _ =>
      if negb (last_forward =? source_frame)%nat then unconnected
      else Ret (mkLookupResult NO_ERROR both None)
  | i :: _, [] =>
      catch_tf_lookup
        (n ← lookupFrameNumber s (ts_frame_id i);
         if negb (n =? target_frame)%nat then unconnected
         else Ret (mkLookupResult NO_ERROR both None))
        (λ what, Ret (mkLookupResult LOOKUP_ERROR both (Some what)))
  | i :: _, f :: _ =>
      if negb (last_forward =? last_inverse)%nat then unconnected
      else
        catch_tf_lookup
          (a ← lookupFrameNumber s (ts_child i);
           no_parent ←
             (if (a =? 0)%nat then Ret true
              else b ← lookupFrameNumber s (ts_child f); Ret (b =? 0)%nat);
           if no_parent : bool then unconnected
           else pop_loop s (reverse inv) (reverse fwd))
          (λ what, Ret (mkLookupResult LOOKUP_ERROR both (Some what)))
  end.

(** [BufferCore::lookupLists] *)
Definition lookupLists (s : Buffer) (target_frame : nat) (time : Time)
    (source_frame : nat) : outcome lookup_result :=
  let none := mkTransformLists [] [] in
  if (target_frame =? source_frame)%nat
  then Ret (mkLookupResult NO_ERROR none None)
  else
    pointer ← getFrame s source_frame;
    match pointer with
    | None =>
        name ← lookupFrameString s source_frame;
        Ret (mkLookupResult LOOKUP_ERROR none (Some (diag_no_source name)))
    | Some _ =>
        r ← walk s time source_frame;
        match r with
        | TooDeep inv =>
            frames ← allFramesAsString s;
            Ret (mkLookupResult LOOKUP_ERROR (mkTransformLists inv [])
                   (Some (diag_loop frames)))
        | Terminated inv last_inverse =>
            pointer ← getFrame s target_frame;
            match pointer with
            | None =>
                name ← lookupFrameString s target_frame;
                Ret (mkLookupResult LOOKUP_ERROR (mkTransformLists inv [])
                       (Some (diag_no_target name)))
            | Some _ =>
                r ← walk s time target_frame;
                match r with
                | TooDeep fwd =>
                    frames ← allFramesAsString s;
                    Ret (mkLookupResult LOOKUP_ERROR
                           (mkTransformLists inv fwd)
                           (Some (diag_loop frames)))
                | Terminated fwd last_forward =>
                    connect s target_frame source_frame
                      inv last_inverse fwd last_forward
                end
            end
        end
    end.

(** *** The extrapolation test

    Each test answers [Some] of its message where the C++ returns true.
    The difference of two instants is the [ros::Duration] of [Time_minus],
    which is compared with the limit. *)

Definition test_extrapolation_one_value (s : Buffer) (target_time : Time)
    (tr : TransformStorage) : option diagnostic :=
  if decide (mode_ tr = ONE_VALUE) then
    if (max_extrapolation_distance_ s
        <? Time_minus (ts_stamp tr) target_time)
       || (max_extrapolation_distance_ s
           <? Time_minus target_time (ts_stamp tr))
    then Some (diag_one_value target_time (ts_stamp tr))
    else None
  else None.

Definition test_extrapolation_past (s : Buffer) (target_time : Time)
    (tr : TransformStorage) : option diagnostic :=
  if bool_decide (mode_ tr = EXTRAPOLATE_BACK)
     && (max_extrapolation_distance_ s
         <? Time_minus (ts_stamp tr) target_time)
  then Some (diag_past target_time (ts_stamp tr))
  else None.

Definition test_extrapolation_future (s : Buffer) (target_time : Time)
    (tr : TransformStorage) : option diagnostic :=
  if bool_decide (mode_ tr = EXTRAPOLATE_FORWARD)
     && (max_extrapolation_distance_ s
         <? Time_minus target_time (ts_stamp tr))
  then Some (diag_future target_time (ts_stamp tr))
  else None.

(** The body of the two [for] loops of [test_extrapolation]. *)
Definition test_extrapolation_step (s : Buffer) (target_time : Time)
    (tr : TransformStorage) : option diagnostic :=
  match test_extrapolation_one_value s target_time tr with
  | Some what => Some what
  | None =>
      match test_extrapolation_past s target_time tr with
      | Some what => Some what
      | None => test_extrapolation_future s target_time tr
      end
  end.

Fixpoint test_extrapolation_list (s : Buffer) (target_time : Time)
    (l : list TransformStorage) : option diagnostic :=
  match l with
  | [] => None
  | tr :: l =>
      match test_extrapolation_step s target_time tr with
      | Some what => Some what
      | None => test_extrapolation_list s target_time l
      end
  end.

(** [BufferCore::test_extrapolation] *)
Definition test_extrapolation (s : Buffer) (target_time : Time)
    (lists : TransformLists) : option diagnostic :=
  match test_extrapolation_list s target_time (inverseTransforms lists) with
  | Some what => Some what
  | None => test_extrapolation_list s target_time (forwardTransforms lists)
  end.

(** *** Composition *)

(** [v[i]] of a vector; the index is not checked by the C++. *)
Definition at_index {A} (v : list A) (i : nat) : outcome A :=
  match v !! i with
  | Some x => Ret x
  | None => Fault OutOfBounds
  end.

(** [for (i = 0; i < n; i++) acc = body(i, acc)] *)
Fixpoint for_loop {A} (body : nat → A → outcome A) (i n : nat) (acc : A)
  : outcome A :=
  match n with
  | O => Ret acc
  | S n => acc ← body i acc; for_loop body (S i) n acc
  end.

(** [BufferCore::computeTransformFromList] *)
Definition computeTransformFromList (lists : TransformLists) : outcome bt :=
  let inv := inverseTransforms lists in
  let fwd := forwardTransforms lists in
  let retTrans := bt_identity in
  retTrans ←
    for_loop (λ i retTrans,
                tr ← at_index inv (length inv - 1 - i);
                Ret (bt_mul retTrans (transformMsgToBT (ts_transform tr))))
             0 (length inv) retTrans;
  for_loop (λ i retTrans,
              tr ← at_index fwd (length fwd - 1 - i);
              Ret (bt_mul (bt_inverse (transformMsgToBT (ts_transform tr)))
                          retTrans))
           0 (length fwd) retTrans.

(** *** Latest common time *)

(** [if (time > stamp) time = stamp] over a vector, front to back. *)
Definition earliest (time : Time) (l : list TransformStorage) : Time :=
  foldl (λ time tr, if ts_stamp tr <? time then ts_stamp tr else time) time l.

(** [BufferCore::getLatestCommonTime]; the answer is the return value, the
    time left in [time] and the message, if one was written. *)
Definition getLatestCommonTime (s : Buffer) (source dest : string)
  : outcome (TF2Error * Time * option diagnostic) :=
  let time := TIME_MAX in
  match (target_id ← lookupFrameNumber s dest;
         source_id ← lookupFrameNumber s source;
         lookupLists s target_id Time_unset source_id) with
  | Throw (tf_LookupException what) =>
      Ret (LOOKUP_ERROR, Time_unset, Some what)
  | Throw e => Throw e
  | Fault f => Fault f
  | Ret r =>
      if decide (retval r = NO_ERROR) then
        match inverseTransforms (lists r), forwardTransforms (lists r) with
        | [], [] => Ret (retval r, Time_unset, error_string r)
        | inv, fwd =>
            let time := earliest time inv in
            let time := earliest time fwd in
            Ret (retval r, time, error_string r)
        end
      else Ret (retval r, 0, error_string r)
  end.

(** *** Queries *)

(** The first half of [lookupTransform(target_frame, source_frame, time)],
    for two different names: the time to look at and the lists of the walk,
    with the return value and the message so far. *)
Definition lookup_walk (s : Buffer) (target_frame source_frame : string)
    (time : Time)
  : outcome (TF2Error * Time * TransformLists * option diagnostic) :=
  '(retval0, temp_time, error_string0) ←
    (if time =? Time_unset
     then getLatestCommonTime s target_frame source_frame
     else Ret (NO_ERROR, time, None));
  if decide (retval0 = NO_ERROR) then
    match (target_id ← lookupFrameNumber s target_frame;
           source_id ← lookupFrameNumber s source_frame;
           lookupLists s target_id temp_time source_id) with
    | Ret r =>
        Ret (retval r, temp_time, lists r,
             from_option Some error_string0 (error_string r))
    | Throw (tf_LookupException what) =>
        Ret (LOOKUP_ERROR, temp_time, mkTransformLists [] [], Some what)
    | Throw e => Throw e
    | Fault f => Fault f
    end
  else Ret (retval0, temp_time, mkTransformLists [] [], error_string0).

(** [BufferCore::lookupTransform(target_frame, source_frame, time)] *)
Definition lookupTransform (s : Buffer) (target_frame source_frame : string)
    (time : Time) : outcome TransformStamped :=
  if String.eqb source_frame target_frame then
    Ret (mkTransformStamped (mkHeader time target_frame) source_frame
           setIdentity)
  else
    '(retval1, temp_time, t_list, error_string1) ←
      lookup_walk s target_frame source_frame time;
    if decide (retval1 = LOOKUP_ERROR)
    then Throw (tf2_LookupException error_string1)
    else if decide (retval1 = CONNECTIVITY_ERROR)
    then Throw (tf2_ConnectivityException error_string1)
    else
      match test_extrapolation s temp_time t_list with
      | Some what =>
          if time =? Time_unset
          then Throw (tf2_ConnectivityException
                        (Some (diag_no_common_time source_frame target_frame)))
          else Throw (tf2_ExtrapolationException (Some what))
      | None =>
          output ← computeTransformFromList t_list;
          Ret (mkTransformStamped (mkHeader temp_time target_frame)
                 source_frame (transformTF2ToMsg output))
      end.

(** [BufferCore::lookupTransform(target_frame, target_time, source_frame,
    source_time, fixed_frame)] *)
Definition lookupTransform_fixed (s : Buffer) (target_frame : string)
    (target_time : Time) (source_frame : string) (source_time : Time)
    (fixed_frame : string) : outcome TransformStamped :=
  temp1 ← lookupTransform s fixed_frame source_frame source_time;
  temp2 ← lookupTransform s target_frame fixed_frame target_time;
  let bt1 := transformMsgToTF2 (transform temp1) in
  let bt2 := transformMsgToTF2 (transform temp2) in
  Ret (mkTransformStamped (mkHeader (stamp (header temp2)) target_frame)
         source_frame (transformTF2ToMsg (bt_mul bt2 bt1))).

(** [BufferCore::canTransform(target_frame, source_frame, time)] hands the
    question to the legacy transformer. *)
Definition canTransform (s : Buffer) (target_frame source_frame : string)
    (time : Time) : bool :=
  old_canTransform (old_tf_ s) target_frame source_frame time.

End Buffer.

Arguments lookupLists {TC OT _} MAX_GRAPH_DEPTH s target_frame time source_frame.
Arguments walk {TC OT _} MAX_GRAPH_DEPTH s time frame.
Arguments walk_loop {TC OT _} MAX_GRAPH_DEPTH fuel s time frame counter steps.
Arguments getLatestCommonTime {TC OT _} MAX_GRAPH_DEPTH s source dest.
Arguments lookup_walk {TC OT _} MAX_GRAPH_DEPTH s target_frame source_frame
  time.
Arguments lookupTransform {TC OT bt _ _} MAX_GRAPH_DEPTH s target_frame
  source_frame time.
Arguments lookupTransform_fixed {TC OT bt _ _} MAX_GRAPH_DEPTH s target_frame
  target_time source_frame source_time fixed_frame.
Arguments BufferCore_new {TC OT _} DEFAULT_MAX_EXTRAPOLATION_DISTANCE cache_time.

(** ** Vocabulary of the properties *)

(** The inputs that the validation of [setTransform] names: a frame that is
    its own parent, a missing child or parent name, a NaN among the seven
    scalars. *)
Definition rejected (m : TransformStamped) : Prop :=
  child_frame_id m = frame_id (header m)
  ∨ child_frame_id m = "" ∨ child_frame_id m = "/"
  ∨ frame_id (header m) = "" ∨ frame_id (header m) = "/"
  ∨ v_x (translation (transform m)) = S754_nan
  ∨ v_y (translation (transform m)) = S754_nan
  ∨ v_z (translation (transform m)) = S754_nan
  ∨ q_x (rotation (transform m)) = S754_nan
  ∨ q_y (rotation (transform m)) = S754_nan
  ∨ q_z (rotation (transform m)) = S754_nan
  ∨ q_w (rotation (transform m)) = S754_nan.

Section Vocabulary.

Context {TC OT : Type}.
Implicit Types s : BufferCore TC OT.

(** One for a name that the registry does not hold yet. *)
Definition fresh_name s (name : string) : nat :=
  match frameIDs_ s !! name with None => 1%nat | Some _ => 0%nat end.

(** The registry as the constructor and [lookupOrInsertFrameNumber] keep it:
    "NO_PARENT" is frame 0, the two tables are inverse to each other and as
    long as the vector of caches, and frame 0 alone has a null cache. *)
Definition registry_ok s : Prop :=
  frameIDs_ s !! "NO_PARENT" = Some 0%nat
  ∧ length (frameIDs_reverse s) = length (frames_ s)
  ∧ (∀ name id,
       frameIDs_ s !! name = Some id ↔ frameIDs_reverse s !! id = Some name)
  ∧ (∀ id, (id < length (frames_ s))%nat →
           frames_ s !! id = Some None ↔ id = 0%nat).

(** The buffers that a program can hold: a new one, and what [setTransform]
    leaves behind when it returns. *)
Inductive reachable `{!TimeCacheOps TC, !LegacyTf OT}
  : BufferCore TC OT → Prop :=
| reachable_new (extrapolation cache_time : Duration) :
    reachable (BufferCore_new extrapolation cache_time)
| reachable_set s (m : TransformStamped) (authority : string) (b : bool) s' :
    reachable s → setTransform s m authority = Ret (b, s') → reachable s'.

(** [linked s time f steps g]: from frame [f] the caches give, at [time],
    the samples [steps] one after the other, each leading to the frame of the
    next, and the last one to [g]. *)
Inductive linked `{!TimeCacheOps TC} s (time : Time)
  : nat → list TransformStorage → nat → Prop :=
| linked_nil f : linked s time f [] f
| linked_cons f cache temp steps g :
    f ≠ 0%nat →
    frames_ s !! f = Some (Some cache) →
    getData cache time = Some temp →
    linked s time (frame_id_num_ temp) steps g →
    linked s time f (temp :: steps) g.

(** A frame with a cache that has nothing for [time]. *)
Definition no_data `{!TimeCacheOps TC} s (time : Time) (f : nat) : Prop :=
  f ≠ 0%nat ∧ ∃ cache, frames_ s !! f = Some (Some cache)
                       ∧ getData cache time = None.

(** Both names of a sample are in the registry. *)
Definition resolves s (tr : TransformStorage) : Prop :=
  is_Some (frameIDs_ s !! ts_child tr)
  ∧ is_Some (frameIDs_ s !! ts_frame_id tr).

(** Two samples whose child names have the same number. *)
Definition same_child s (a b : TransformStorage) : Prop :=
  ∃ n, frameIDs_ s !! ts_child a = Some n ∧ frameIDs_ s !! ts_child b = Some n.

(** [inv'] and [fwd'] are [inv] and [fwd] without the steps they share at
    the back: the parts removed agree child by child, and what is left does
    not end in a shared child unless one side is used up. *)
Definition popped s (inv fwd inv' fwd' : list TransformStorage) : Prop :=
  ∃ si sf, inv = inv' ++ si ∧ fwd = fwd' ++ sf
           ∧ Forall2 (same_child s) si sf
           ∧ match last inv', last fwd' with
             | Some i, Some f => ¬ same_child s i f
             | _, _ => True
             end.

End Vocabulary.

(** [t] is the earliest stamp among the samples of [l]. *)
Definition earliest_stamp (l : list TransformStorage) (t : Time) : Prop :=
  (∃ tr, tr ∈ l ∧ ts_stamp tr = t) ∧ ∀ tr, tr ∈ l → t ≤ ts_stamp tr.

(** The walk that [getLatestCommonTime source dest] runs: from the number of
    [dest] as target to the number of [source], at the zero instant. *)
Definition latest_walk {TC OT : Type} `{!TimeCacheOps TC}
    (MAX_GRAPH_DEPTH : nat) (s : BufferCore TC OT) (source dest : string)
  : outcome lookup_result :=
  target_id ← lookupFrameNumber s dest;
  source_id ← lookupFrameNumber s source;
  lookupLists MAX_GRAPH_DEPTH s target_id Time_unset source_id.

(** The sample [tr], handed out by its cache for the time [t], lies beyond
    the extrapolation limit, the distances being the durations that
    [Time_minus] gives: a single value further than [limit] from [t] on
    either side, an oldest value more than [limit] after [t], a newest value
    more than [limit] before [t].  A sample that was found or interpolated is
    never beyond the limit. *)
Definition beyond_limit (limit : Duration) (t : Time) (tr : TransformStorage)
  : Prop :=
  match mode_ tr with
  | ONE_VALUE =>
      Time_minus (ts_stamp tr) t > limit ∨ Time_minus t (ts_stamp tr) > limit
  | EXTRAPOLATE_BACK => Time_minus (ts_stamp tr) t > limit
  | EXTRAPOLATE_FORWARD => Time_minus t (ts_stamp tr) > limit
  | EXACT | INTERPOLATED | EMPTY => False
  end.

(** The same with the distances as plain differences of the instants, the
    way the specification writes the test. *)
Definition distance_beyond (limit : Duration) (t : Time)
    (tr : TransformStorage) : Prop :=
  match mode_ tr with
  | ONE_VALUE => Z.abs (t - ts_stamp tr) > limit
  | EXTRAPOLATE_BACK => ts_stamp tr - t > limit
  | EXTRAPOLATE_FORWARD => t - ts_stamp tr > limit
  | EXACT | INTERPOLATED | EMPTY => False
  end.

(** The instants [a] and [b] are less than 2^31 s apart: their difference is
    a duration in both directions. *)
Definition within_a_duration (a b : Time) : Prop :=
  Z.abs (a - b) < DURATION_RANGE.

(** The walk answers with one of three codes. *)
Definition walk_code (code : TF2Error) : Prop :=
  code = NO_ERROR ∨ code = LOOKUP_ERROR ∨ code = CONNECTIVITY_ERROR.

Section CompositionVocabulary.

Context {bt : Type} `{!BtTransformOps bt}.

(** The transform of a step, as the composition reads it. *)
Definition step_transform (tr : TransformStorage) : bt :=
  transformMsgToBT (ts_transform tr).

(** The procedure of the specification: start from the identity, multiply on
    the right by the inverse list from its last step down to its first, then
    on the left by the inverted forward steps, last down to first. *)
Definition compose_procedure (inv fwd : list TransformStorage) : bt :=
  let T := foldl (λ T i, bt_mul T (step_transform i)) bt_identity
             (reverse inv) in
  foldl (λ T f, bt_mul (bt_inverse (step_transform f)) T) T (reverse fwd).

(** The product of the steps of a list, the step nearest the root first. *)
Definition product_parent_first (l : list TransformStorage) : bt :=
  foldr (λ x acc, bt_mul (step_transform x) acc) bt_identity (reverse l).

(** The laws of a group, which the rigid transforms obey. *)
Definition group_laws : Prop :=
  (∀ a b c : bt, bt_mul (bt_mul a b) c = bt_mul a (bt_mul b c))
  ∧ (∀ a : bt, bt_mul bt_identity a = a)
  ∧ (∀ a : bt, bt_mul a bt_identity = a)
  ∧ (∀ a : bt, bt_mul (bt_inverse a) a = bt_identity)
  ∧ (∀ a : bt, bt_mul a (bt_inverse a) = bt_identity).

End CompositionVocabulary.

(** ** Clearing the buffer *)

(** What [clear] asks of its collaborators: [TimeCache::clearList] and
    [tf::Transformer::clear]. *)
Class TimeCacheClear (TC : Type) := { clearList : TC → TC }.
Class LegacyClear (OT : Type) := { old_clear : OT → OT }.

(** [BufferCore::clear]: the legacy transformer is cleared, then every cache
    from the second element of [frames_] on; a null pointer among them would
    be dereferenced.  The registry and the authorities are not touched. *)
Definition clear {TC OT : Type} `{!TimeCacheClear TC, !LegacyClear OT}
    (s : BufferCore TC OT) : outcome (BufferCore TC OT) :=
  let s := set_old_tf s (old_clear (old_tf_ s)) in
  if (1 <? length (frames_ s))%nat then
    rest ← mapM (λ pointer : option TC,
                   match pointer with
                   | None => Fault NullDereference
                   | Some cache => Ret (Some (clearList cache))
                   end)
                (drop 1 (frames_ s));
    Ret (set_frames s (take 1 (frames_ s) ++ rest))
  else Ret s.

(** ** More vocabulary *)

(** The parent name of a sample has the parent number of the sample, as in
    the samples that [setTransform] builds. *)
Definition consistent {TC OT : Type} (s : BufferCore TC OT)
    (tr : TransformStorage) : Prop :=
  frameIDs_ s !! ts_frame_id tr = Some (frame_id_num_ tr).

(** The latest sample of every cache names a parent that exists. *)
Definition parents_in_range {TC OT : Type} `{!TimeCacheOps TC}
    (s : BufferCore TC OT) : Prop :=
  ∀ (id : nat) (cache : TC) (temp : TransformStorage),
    frames_ s !! id = Some (Some cache) →
    getData cache Time_unset = Some temp →
    (frame_id_num_ temp < length (frameIDs_reverse s))%nat.

(** The name of the parent that [allFramesAsString] prints for a frame. *)
Definition printed_parent {TC OT : Type} `{!TimeCacheOps TC}
    (s : BufferCore TC OT) (id : nat) : option string :=
  match frames_ s !! id with
  | Some (Some cache) =>
      match getData cache Time_unset with
      | Some temp => frameIDs_reverse s !! frame_id_num_ temp
      | None => frameIDs_reverse s !! 0%nat
      end
  | _ => None
  end.

(** The two lists exchanged. *)
Definition swap_lists (l : TransformLists) : TransformLists :=
  mkTransformLists (forwardTransforms l) (inverseTransforms l).

(** The exceptions of tf2: [LookupException], [ConnectivityException] and
    [ExtrapolationException]. *)
Definition tf2_exception (e : exn) : Prop :=
  match e with
  | tf_LookupException _ => False
  | _ => True
  end.

(** ** A time cache after the specification *)

(** Modelled from the spec: the time cache ([tf2/time_cache.h] and its
    implementation are not among the sources).  The samples are kept in a
    list, oldest first.  Insertion refuses a sample older than the newest one
    by more than [cache_time], replaces a sample of the same instant, keeps
    the order and evicts what has become too old.  Retrieval follows the six
    modes; the zero instant asks for the newest sample.  The interpolation of
    two samples is a parameter. *)
Module ListCache.

Record t := mk {
  cache_time : Duration;
  max_extrapolation : Duration;
  storage_ : list TransformStorage
}.

Definition tag (m : ExtrapolationMode) (x : TransformStorage)
  : TransformStorage :=
  mkTransformStorage (msg x) (frame_id_num_ x) m.

Fixpoint insert_sorted (x : TransformStorage) (l : list TransformStorage)
  : list TransformStorage :=
  match l with
  | [] => [x]
  | y :: l' =>
      if ts_stamp x <? ts_stamp y then x :: l
      else if ts_stamp x =? ts_stamp y then x :: l'
      else y :: insert_sorted x l'
  end.

Definition insert (c : t) (x : TransformStorage) : bool * t :=
  match last (storage_ c) with
  | None => (true, mk (cache_time c) (max_extrapolation c) [x])
  | Some newest =>
      if ts_stamp x <? ts_stamp newest - cache_time c then (false, c)
      else
        let l := insert_sorted x (storage_ c) in
        let horizon := Z.max (ts_stamp x) (ts_stamp newest) - cache_time c in
        (true,
         mk (cache_time c) (max_extrapolation c)
            (filter (λ y, horizon ≤ ts_stamp y) l))
  end.

Section Get.

Variable interpolate : TransformStorage → TransformStorage → Time → Transform.

Definition between (s0 s1 : TransformStorage) (time : Time)
  : TransformStorage :=
  mkTransformStorage
    (mkTransformStamped (mkHeader time (ts_frame_id s0)) (ts_child s0)
       (interpolate s0 s1 time))
    (frame_id_num_ s0) INTERPOLATED.

(** [time] is not before [s0]; the samples after [s0] are [l]. *)
Fixpoint bracket (time : Time) (s0 : TransformStorage)
    (l : list TransformStorage) : TransformStorage :=
  if time =? ts_stamp s0 then tag EXACT s0
  else
    match l with
    | [] => tag EXTRAPOLATE_FORWARD s0
    | s1 :: l' =>
        if time <? ts_stamp s1 then between s0 s1 time
        else bracket time s1 l'
    end.

Definition get (c : t) (time : Time) : option TransformStorage :=
  match storage_ c with
  | [] => None
  | oldest :: rest =>
      if time =? Time_unset then
        Some (tag EXACT (List.last rest oldest))
      else
        match rest with
        | [] => Some (tag ONE_VALUE oldest)
        | _ :: _ =>
            if time <? ts_stamp oldest
            then Some (tag EXTRAPOLATE_BACK oldest)
            else Some (bracket time oldest rest)
        end
  end.

Definition ops : TimeCacheOps t :=
  {| TimeCache_new := λ cache_time max_extrapolation,
       mk cache_time max_extrapolation [];
     insertData := insert;
     getData := get |}.

End Get.

(** The interpolation of the examples keeps the earlier transform; no
    example interpolates. *)
Definition hold (s0 _ : TransformStorage) (_ : Time) : Transform :=
  ts_transform s0.

End ListCache.

(** ** The rigid motions of the integer line

    A small transform algebra for the examples: [x ↦ ±x + shift].  It is a
    group and it is not commutative. *)
Module Line.

Record t := mk { flip : bool; shift : Z }.

Definition identity : t := mk false 0.

Definition mul (a b : t) : t :=
  mk (xorb (flip a) (flip b))
     (shift a + (if flip a then - shift b else shift b)).

Definition inverse (a : t) : t :=
  mk (flip a) (if flip a then shift a else - shift a).

(** The value of a double that holds an integer; zero for the others. *)
Definition to_Z (x : spec_float) : Z :=
  match x with
  | S754_finite sign m e =>
      if 0 <=? e then (if sign then - (Z.pos m * 2 ^ e) else Z.pos m * 2 ^ e)
      else 0
  | _ => 0
  end.

Definition is_negative (x : spec_float) : bool :=
  match x with
  | S754_finite sign _ _ | S754_zero sign | S754_infinity sign => sign
  | S754_nan => false
  end.

Definition of_Z (z : Z) : spec_float :=
  match z with
  | Z0 => S754_zero false
  | Zpos p => S754_finite false p 0
  | Zneg p => S754_finite true p 0
  end.

Definition of_msg (m : Transform) : t :=
  mk (is_negative (q_w (rotation m))) (to_Z (v_x (translation m))).

Definition to_msg (a : t) : Transform :=
  mkTransform
    (mkVector3 (of_Z (shift a)) scalar_zero scalar_zero)
    (mkQuaternion scalar_zero scalar_zero scalar_zero
       (if flip a then S754_finite true 1 0 else S754_finite false 1 0)).

Definition ops : BtTransformOps t :=
  {| bt_identity := identity;
     bt_mul := mul;
     bt_inverse := inverse;
     transformMsgToBT := of_msg;
     transformMsgToTF2 := of_msg;
     transformTF2ToMsg := to_msg |}.

End Line.

(** A legacy transformer that keeps nothing, for the examples. *)
Definition no_legacy : LegacyTf unit :=
  {| old_new := λ _, tt;
     old_setTransform := λ o _ _, (true, o);
     old_canTransform := λ _ _ _ _, false |}.

(** Modelled from the spec: [TimeCache::clearList], which is not among the
    sources, empties the cache. *)
Definition list_cache_clear : TimeCacheClear ListCache.t :=
  {| clearList := λ c,
       ListCache.mk (ListCache.cache_time c) (ListCache.max_extrapolation c)
         [] |}.

Definition no_legacy_clear : LegacyClear unit := {| old_clear := λ o, o |}.

(** A legacy transformer that counts the messages it was handed. *)
Definition counting_legacy : LegacyTf nat :=
  {| old_new := λ _, 0%nat;
     old_setTransform := λ o _ _, (true, S o);
     old_canTransform := λ _ _ _ _, false |}.

(** ** Example buffers *)
Module Examples.

#[local] Existing Instance no_legacy.
#[local] Instance cache_ops : TimeCacheOps ListCache.t :=
  ListCache.ops ListCache.hold.
#[local] Existing Instance Line.ops.

Abbreviation Buffer := (BufferCore ListCache.t unit).

(** A message with a translation of [x] along the first axis. *)
Definition message (parent child : string) (time : Time) (x : Z)
  : TransformStamped :=
  mkTransformStamped (mkHeader time parent) child
    (mkTransform (mkVector3 (Line.of_Z x) scalar_zero scalar_zero)
       (mkQuaternion scalar_zero scalar_zero scalar_zero scalar_one)).

(** A step with the motion [x ↦ ±x + shift]. *)
Definition step (mirrored : bool) (shift : Z) : TransformStorage :=
  TransformStorage_of
    (mkTransformStamped (mkHeader 5 "parent") "child"
       (Line.to_msg (Line.mk mirrored shift)))
    1.

(** The buffer after a publication, whatever it returned. *)
Definition publish (b : outcome Buffer) (m : TransformStamped)
  : outcome Buffer :=
  s ← b; r ← setTransform s m "example"; Ret r.2.

(** A new buffer, without extrapolation. *)
Definition fresh : outcome Buffer := Ret (BufferCore_new 0 10000000000).

(** The buffer of an example. *)
Definition the (b : outcome Buffer) : Buffer :=
  match b with Ret s => s | _ => BufferCore_new 0 0 end.

(** The depth of the examples, unless another one is given. *)
Definition depth : nat := 1000.

(** [p → a] published at instant 5: "a" is frame 1 and "p" frame 2. *)
Definition one_link : outcome Buffer :=
  Eval vm_compute in publish fresh (message "p" "a" 5 3).

(** [a → b → c → d], all at instant 5: frames 1 to 4. *)
Definition chain3 : outcome Buffer :=
  Eval vm_compute in
    publish (publish (publish fresh (message "b" "a" 5 1))
               (message "c" "b" 5 2))
      (message "d" "c" 5 4).

(** [a] and [b] publish each other as parent. *)
Definition cycle : outcome Buffer :=
  Eval vm_compute in
    publish (publish fresh (message "b" "a" 5 1)) (message "a" "b" 5 1).

(** [a] and [b] are published with the parent "NO_PARENT": frames 1 and 2. *)
Definition rooted_a : outcome Buffer :=
  Eval vm_compute in publish fresh (message "NO_PARENT" "a" 5 1).
Definition rooted : outcome Buffer :=
  Eval vm_compute in publish rooted_a (message "NO_PARENT" "b" 5 2).

(** [l] and [r] below a common [root]: frames 1, 3 and 2. *)
Definition fork : outcome Buffer :=
  Eval vm_compute in
    publish (publish fresh (message "root" "l" 5 1)) (message "root" "r" 7 2).

(** Two links that do not meet, [p → a] and [q → b]: frames 1 to 4 are
    "a", "p", "b" and "q". *)
Definition islands : outcome Buffer :=
  Eval vm_compute in publish one_link (message "q" "b" 5 1).

(** A buffer with an extrapolation limit of 10 s, where "a" is published
    once, at the last second of the clock: 4294967295 s. *)
Definition far : outcome Buffer :=
  Eval vm_compute in
    publish (Ret (BufferCore_new 10000000000 0))
      (message "p" "a" 4294967295000000000 3).

(** A sample of "a" at 3000000000 s that a cache hands out as its oldest. *)
Definition far_oldest : TransformStorage :=
  mkTransformStorage (message "p" "a" 3000000000000000000 3) 2
    EXTRAPOLATE_BACK.

(** [a] has a sample at instant 100 s; then a sample for "a" at 1 ns under
    the unknown parent "q" is offered. *)
Definition late : outcome Buffer :=
  Eval vm_compute in publish fresh (message "p" "a" 100000000000 0).

Definition late_then_old : bool * Buffer :=
  match setTransform (the late) (message "q" "a" 1 0) "me" with
  | Ret r => r
  | _ => (true, the late)
  end.

(** The samples of [chain3] as its caches hand them out at instant 5. *)
Definition chain3_steps : list TransformStorage :=
  [TransformStorage_of (message "b" "a" 5 1) 2;
   TransformStorage_of (message "c" "b" 5 2) 3;
   TransformStorage_of (message "d" "c" 5 4) 4].

(** The sample of [one_link], and those of [fork]. *)
Definition one_link_step : TransformStorage :=
  TransformStorage_of (message "p" "a" 5 3) 2.
Definition fork_l : TransformStorage :=
  TransformStorage_of (message "root" "l" 5 1) 2.
Definition fork_r : TransformStorage :=
  TransformStorage_of (message "root" "r" 7 2) 2.

(** What a call returned, for the examples that return. *)
Definition returned {A} (d : A) (o : outcome A) : A :=
  match o with Ret a => a | _ => d end.

Definition steps_of (r : outcome walk_result) : list TransformStorage :=
  match r with
  | Ret (Terminated l _) | Ret (TooDeep l) => l
  | _ => []
  end.

End Examples.

(** ** The validation of [setTransform] *)

Lemma isnan_true (x : spec_float) : isnan x = true ↔ x = S754_nan.
Proof. destruct x; simpl; split; congruence. Qed.

Lemma has_nan_true (t : Transform) :
  has_nan t = true ↔
  v_x (translation t) = S754_nan ∨ v_y (translation t) = S754_nan
  ∨ v_z (translation t) = S754_nan
  ∨ q_x (rotation t) = S754_nan ∨ q_y (rotation t) = S754_nan
  ∨ q_z (rotation t) = S754_nan ∨ q_w (rotation t) = S754_nan.
Proof.
  unfold has_nan. rewrite !orb_true_iff, !isnan_true. tauto.
Qed.

Lemma error_exists_true (m : TransformStamped) :
  error_exists m = true ↔ rejected m.
Proof.
  unfold error_exists, rejected.
  pose proof (has_nan_true (transform m)) as Hnan.
  destruct (has_nan (transform m)).
  - split; [intros _ | reflexivity].
    destruct Hnan as [Hnan _]. specialize (Hnan eq_refl). tauto.
  - assert (Hno : ¬ (v_x (translation (transform m)) = S754_nan
       ∨ v_y (translation (transform m)) = S754_nan
       ∨ v_z (translation (transform m)) = S754_nan
       ∨ q_x (rotation (transform m)) = S754_nan
       ∨ q_y (rotation (transform m)) = S754_nan
       ∨ q_z (rotation (transform m)) = S754_nan
       ∨ q_w (rotation (transform m)) = S754_nan)).
    { intros H. apply Hnan in H. discriminate. }
    destruct (String.eqb_spec (child_frame_id m) (frame_id (header m)));
      destruct (String.eqb_spec (child_frame_id m) "/");
      destruct (String.eqb_spec (child_frame_id m) "");
      destruct (String.eqb_spec (frame_id (header m)) "/");
      destruct (String.eqb_spec (frame_id (header m)) "");
      simpl; split; try tauto; try discriminate.
Qed.

Lemma error_exists_false (m : TransformStamped) :
  error_exists m = false ↔ ¬ rejected m.
Proof.
  rewrite <- error_exists_true. destruct (error_exists m); split; congruence.
Qed.

(** ** The registry *)

Section Registry.

Context {TC OT : Type} `{!TimeCacheOps TC, !LegacyTf OT}.

Implicit Types s : BufferCore TC OT.

Lemma set_old_tf_state s o : tf2_state (set_old_tf s o) = tf2_state s.
Proof. reflexivity. Qed.

Lemma registry_ok_new (extrapolation cache_time : Duration) :
  registry_ok (BufferCore_new (TC:=TC) (OT:=OT) extrapolation cache_time).
Proof.
  unfold registry_ok, BufferCore_new; simpl. split; [done|]. split; [done|].
  split.
  - intros name id. split.
    + intros H. destruct (decide (name = "NO_PARENT")) as [->|Hne].
      * rewrite lookup_insert_eq in H. now injection H as <-.
      * rewrite lookup_insert_ne in H by done. now rewrite lookup_empty in H.
    + destruct id as [|id]; simpl; [|now rewrite lookup_nil].
      intros [= <-]. apply lookup_insert_eq.
  - intros [|id] Hid; simpl in *; [done|lia].
Qed.

Lemma registry_ok_in_range s name id :
  registry_ok s → frameIDs_ s !! name = Some id →
  (id < length (frames_ s))%nat.
Proof.
  intros (_ & Hlen & Hbij & _) H. apply Hbij in H.
  apply lookup_lt_Some in H. lia.
Qed.

Lemma registry_ok_cache s id :
  registry_ok s → (id < length (frames_ s))%nat → id ≠ 0%nat →
  ∃ cache, frames_ s !! id = Some (Some cache).
Proof.
  intros (_ & _ & _ & Hnull) Hid Hne.
  destruct (lookup_lt_is_Some_2 _ _ Hid) as [[cache|] Hc]; [eauto|].
  apply Hnull in Hc; [done|lia].
Qed.

Lemma registry_ok_set_old_tf s o : registry_ok s → registry_ok (set_old_tf s o).
Proof. done. Qed.

Lemma registry_ok_set_frame_authority s a :
  registry_ok s → registry_ok (set_frame_authority s a).
Proof. done. Qed.

Lemma registry_ok_set_cache s id cache :
  registry_ok s → id ≠ 0%nat →
  registry_ok (set_frames s (<[id := Some cache]> (frames_ s))).
Proof.
  intros (H0 & Hlen & Hbij & Hnull) Hne.
  unfold registry_ok; simpl. rewrite length_insert.
  split; [done|]. split; [done|]. split; [done|].
  intros id' Hid'. split.
  - intros Hl. destruct (decide (id = id')) as [->|Hd].
    + rewrite list_lookup_insert_eq in Hl by done. done.
    + rewrite list_lookup_insert_ne in Hl by done. now apply Hnull.
  - intros ->. rewrite list_lookup_insert_ne by done. now apply Hnull.
Qed.

(** What [lookupOrInsertFrameNumber] does to a registry in good order. *)
Lemma lookupOrInsertFrameNumber_ok s name id s' :
  registry_ok s →
  lookupOrInsertFrameNumber s name = (id, s') →
  registry_ok s'
  ∧ frameIDs_ s' !! name = Some id
  ∧ frameIDs_ s ⊆ frameIDs_ s'
  ∧ (∀ other, other ≠ name → frameIDs_ s' !! other = frameIDs_ s !! other)
  ∧ frames_ s' =
      frames_ s ++
      match frameIDs_ s !! name with
      | None => [Some (TimeCache_new (cache_time s)
                                     (max_extrapolation_distance_ s))]
      | Some _ => []
      end
  ∧ (frameIDs_ s !! name = None → id = length (frames_ s))
  ∧ frame_authority_ s' = frame_authority_ s
  ∧ cache_time s' = cache_time s
  ∧ max_extrapolation_distance_ s' = max_extrapolation_distance_ s.
Proof.
  intros Hok. unfold lookupOrInsertFrameNumber.
  destruct (frameIDs_ s !! name) as [n|] eqn:Hn; intros [= <- <-]; simpl.
  { rewrite app_nil_r. split; [done|]. repeat split; try done. }
  destruct Hok as (H0 & Hlen & Hbij & Hnull).
  assert (Hpos : (0 < length (frames_ s))%nat).
  { apply Hbij in H0. apply lookup_lt_Some in H0. lia. }
  split; [|repeat split; try done].
  - unfold registry_ok; simpl. split; [|split; [|split]].
    + rewrite lookup_insert_ne; [done|]. intros ->. congruence.
    + rewrite !length_app. simpl. lia.
    + intros name' id'. split; intros H.
      * destruct (decide (name = name')) as [<-|Hd].
        -- rewrite lookup_insert_eq in H. injection H as <-.
           rewrite <- Hlen. apply list_lookup_middle. done.
        -- rewrite lookup_insert_ne in H by done. apply Hbij in H.
           now apply lookup_app_l_Some.
      * apply lookup_app_Some in H as [H|[Hge H]].
        -- apply Hbij in H. rewrite lookup_insert_ne; [done|].
           intros <-. congruence.
        -- rewrite Hlen in *.
           destruct (id' - length (frames_ s))%nat as [|k] eqn:Hk;
             simpl in H; [|now rewrite lookup_nil in H].
           injection H as <-.
           replace id' with (length (frames_ s)) by lia.
           apply lookup_insert_eq.
    + intros id' Hid'. rewrite length_app in Hid'. simpl in Hid'.
      split.
      * intros Hl. apply lookup_app_Some in Hl as [Hl|[Hge Hl]].
        -- apply Hnull in Hl; [done|]. now apply lookup_lt_Some in Hl.
        -- destruct (id' - length (frames_ s))%nat as [|k]; simpl in Hl;
             [done|now rewrite lookup_nil in Hl].
      * intros ->. rewrite lookup_app_l by done. now apply Hnull.
  - apply lookup_insert_eq.
  - now apply insert_subseteq.
  - intros other Hne. now rewrite lookup_insert_ne.
Qed.

End Registry.

(** ** Properties of [setTransform] *)

Section SetTransform.

Context {TC OT : Type} `{!TimeCacheOps TC, !LegacyTf OT}.

Implicit Types s : BufferCore TC OT.

(** C1.  A message that fails the validation of [setTransform] (own parent,
    child or parent name empty or "/", a NaN among the seven scalars) makes
    it return false with the registry, the caches, the reverse table and the
    authorities exactly as they were: no name is registered, no cache is
    touched and no authority is recorded. *)
Theorem setTransform_rejected_no_mutation s (m : TransformStamped)
    (authority : string) :
  rejected m →
  ∃ s', setTransform s m authority = Ret (false, s')
        ∧ tf2_state s' = tf2_state s
        ∧ cache_time s' = cache_time s
        ∧ max_extrapolation_distance_ s' = max_extrapolation_distance_ s.
Proof.
  intros Hrej. apply error_exists_true in Hrej.
  unfold setTransform. rewrite Hrej.
  eexists. split; [reflexivity|]. now rewrite set_old_tf_state.
Qed.

(** What a call that passes the validation has done when it returns: both
    names are numbered, the cache of the child has been asked to insert the
    sample with the number of the parent, and the answer of the cache decides
    the return value and the authority. *)
Lemma setTransform_accepted s (m : TransformStamped)
    (authority : string) (b : bool) s' :
  registry_ok s →
  ¬ rejected m →
  setTransform s m authority = Ret (b, s') →
  ∃ c p cache0 cache',
    frameIDs_ s' !! child_frame_id m = Some c
    ∧ frameIDs_ s' !! frame_id (header m) = Some p
    ∧ frameIDs_ s ⊆ frameIDs_ s'
    ∧ length (frames_ s') =
        (length (frames_ s) + fresh_name s (child_frame_id m)
         + fresh_name s (frame_id (header m)))%nat
    ∧ match frameIDs_ s !! child_frame_id m with
      | Some _ => frames_ s !! c = Some (Some cache0)
      | None => c = length (frames_ s)
                ∧ cache0 = TimeCache_new (cache_time s)
                             (max_extrapolation_distance_ s)
      end
    ∧ insertData cache0 (TransformStorage_of m p) = (b, cache')
    ∧ frames_ s' !! c = Some (Some cache')
    ∧ (frameIDs_ s !! frame_id (header m) = None →
       p = (length (frames_ s) + fresh_name s (child_frame_id m))%nat
       ∧ frames_ s' !! p =
           Some (Some (TimeCache_new (cache_time s)
                         (max_extrapolation_distance_ s))))
    ∧ frame_authority_ s' =
        (if b then <[c := authority]> (frame_authority_ s)
         else frame_authority_ s)
    ∧ registry_ok s'.
Proof.
  intros Hok Hval Hrun. unfold setTransform in Hrun.
  assert (Hne : child_frame_id m ≠ frame_id (header m)).
  { intros E. apply Hval. now left. }
  apply error_exists_false in Hval. rewrite Hval in Hrun.
  set (s0 := set_old_tf s _) in Hrun.
  destruct (lookupOrInsertFrameNumber s0 (child_frame_id m))
    as [c s1] eqn:Hc.
  destruct (lookupOrInsertFrameNumber s1 (frame_id (header m)))
    as [p s2] eqn:Hp.
  apply lookupOrInsertFrameNumber_ok in Hc
    as (Hok1 & Hc1 & Hc2 & Hc3 & Hc4 & Hc5 & Hc6 & Hc7 & Hc8);
    [|now apply registry_ok_set_old_tf].
  apply lookupOrInsertFrameNumber_ok in Hp
    as (Hok2 & Hp1 & Hp2 & Hp3 & Hp4 & Hp5 & Hp6 & Hp7 & Hp8); [|done].
  change (frameIDs_ s0) with (frameIDs_ s) in *.
  change (frames_ s0) with (frames_ s) in *.
  change (frame_authority_ s0) with (frame_authority_ s) in *.
  change (cache_time s0) with (cache_time s) in *.
  change (max_extrapolation_distance_ s0)
    with (max_extrapolation_distance_ s) in *.
  rewrite (Hc3 (frame_id (header m))) in Hp4, Hp5 by done.
  assert (Hc_range := registry_ok_in_range _ _ _ Hok1 Hc1).
  unfold getFrame in Hrun.
  destruct (Nat.eqb_spec c 0) as [->|Hc0]; [discriminate Hrun|].
  destruct (registry_ok_cache _ _ Hok1 Hc_range Hc0) as [cache0 Hcache0].
  assert (Hcache2 : frames_ s2 !! c = Some (Some cache0)).
  { rewrite Hp4. now apply lookup_app_l_Some. }
  rewrite Hcache2 in Hrun. simpl in Hrun.
  destruct (insertData cache0 (TransformStorage_of m p))
    as [inserted cache'] eqn:Hins.
  assert (Hc2' : (c < length (frames_ s2))%nat).
  { now apply lookup_lt_Some in Hcache2. }
  exists c, p, cache0, cache'.
  assert (Hshape :
    frameIDs_ s2 !! child_frame_id m = Some c
    ∧ frameIDs_ s ⊆ frameIDs_ s2
    ∧ length (frames_ s2) =
        (length (frames_ s) + fresh_name s (child_frame_id m)
         + fresh_name s (frame_id (header m)))%nat
    ∧ match frameIDs_ s !! child_frame_id m with
      | Some _ => frames_ s !! c = Some (Some cache0)
      | None => c = length (frames_ s)
                ∧ cache0 = TimeCache_new (cache_time s)
                             (max_extrapolation_distance_ s)
      end
    ∧ (frameIDs_ s !! frame_id (header m) = None →
       p = (length (frames_ s) + fresh_name s (child_frame_id m))%nat
       ∧ p ≠ c
       ∧ frames_ s2 !! p =
           Some (Some (TimeCache_new (cache_time s)
                         (max_extrapolation_distance_ s))))).
  { split; [rewrite Hp3; done|]. split; [by etrans|].
    unfold fresh_name. rewrite Hp4, Hc4, !length_app.
    destruct (frameIDs_ s !! child_frame_id m) as [c'|] eqn:Ec;
      destruct (frameIDs_ s !! frame_id (header m)) as [p'|] eqn:Ep;
      simpl; rewrite ?app_nil_r in *; simpl.
    - split; [lia|]. split; [congruence|done].
    - rewrite ?Hc4 in Hcache0, Hc_range, Hp5.
      split; [lia|]. split; [done|]. intros _.
      specialize (Hp5 eq_refl). subst p. split; [lia|]. split; [lia|].
      rewrite Hc7, Hc8. apply list_lookup_middle. done.
    - specialize (Hc5 eq_refl). subst c.
      rewrite Hc4 in Hcache0.
      rewrite list_lookup_middle in Hcache0 by done.
      split; [lia|]. split; [split; congruence|done].
    - specialize (Hc5 eq_refl). subst c.
      rewrite Hc4 in Hcache0, Hp5.
      rewrite list_lookup_middle in Hcache0 by done.
      rewrite length_app in Hp5. simpl in Hp5.
      split; [lia|]. split; [split; congruence|]. intros _.
      specialize (Hp5 eq_refl). subst p. split; [lia|]. split; [lia|].
      rewrite Hc7, Hc8. apply list_lookup_middle.
      rewrite length_app. simpl. lia. }
  destruct Hshape as (Hs1 & Hs2 & Hs3 & Hs4 & Hs5).
  destruct inserted; injection Hrun as <- <-; simpl;
    rewrite ?length_insert, ?list_lookup_insert_eq by done;
    (repeat (split; [first [done | congruence]|]));
    (split; [intros Hnew; destruct (Hs5 Hnew) as (? & ? & ?);
             split; [done|]; rewrite list_lookup_insert_ne by done; done|]);
    (split; [congruence|]).
  - apply registry_ok_set_frame_authority.
    now apply registry_ok_set_cache.
  - now apply registry_ok_set_cache.
Qed.

(** The registry stays in good order whatever the call returns. *)
Lemma setTransform_registry_ok s (m : TransformStamped) (authority : string)
    (b : bool) s' :
  registry_ok s → setTransform s m authority = Ret (b, s') → registry_ok s'.
Proof.
  intros Hok Hrun. destruct (error_exists m) eqn:He.
  - unfold setTransform in Hrun. rewrite He in Hrun.
    injection Hrun as <- <-. now apply registry_ok_set_old_tf.
  - apply error_exists_false in He.
    destruct (setTransform_accepted _ _ _ _ _ Hok He Hrun)
      as (c & p & c0 & c' & H). apply H.
Qed.


(** No call makes the registry or the vector of caches smaller. *)
Lemma setTransform_monotone s (m : TransformStamped) (authority : string)
    (b : bool) s' :
  registry_ok s → setTransform s m authority = Ret (b, s') →
  frameIDs_ s ⊆ frameIDs_ s'
  ∧ (length (frames_ s) ≤ length (frames_ s'))%nat.
Proof.
  intros Hok Hrun. destruct (error_exists m) eqn:He.
  - unfold setTransform in Hrun. rewrite He in Hrun.
    injection Hrun as <- <-. done.
  - apply error_exists_false in He.
    destruct (setTransform_accepted _ _ _ _ _ Hok He Hrun)
      as (c & p & c0 & c' & _ & _ & H3 & H4 & _). split; [done|lia].
Qed.

(** X5.  On a registry in good order a message that passes the validation
    is always answered when its child is not "NO_PARENT"; for the child
    "NO_PARENT", which passes the validation, the call dereferences the null
    cache of frame 0. *)
Lemma setTransform_total s (m : TransformStamped) (authority : string) :
  registry_ok s → ¬ rejected m →
  if String.eqb (child_frame_id m) "NO_PARENT"
  then setTransform s m authority = Fault NullDereference
  else ∃ b s', setTransform s m authority = Ret (b, s').
Proof.
  intros Hok Hval. unfold setTransform.
  assert (Hne : child_frame_id m ≠ frame_id (header m)).
  { intros E. apply Hval. now left. }
  apply error_exists_false in Hval. rewrite Hval.
  set (s0 := set_old_tf s _).
  destruct (lookupOrInsertFrameNumber s0 (child_frame_id m))
    as [c s1] eqn:Hc.
  destruct (lookupOrInsertFrameNumber s1 (frame_id (header m)))
    as [p s2] eqn:Hp.
  apply lookupOrInsertFrameNumber_ok in Hc
    as (Hok1 & Hc1 & Hc2 & Hc3 & Hc4 & Hc5 & _);
    [|now apply registry_ok_set_old_tf].
  apply lookupOrInsertFrameNumber_ok in Hp
    as (Hok2 & Hp1 & Hp2 & Hp3 & Hp4 & _); [|done].
  assert (Hc_range := registry_ok_in_range _ _ _ Hok1 Hc1).
  unfold getFrame.
  destruct (String.eqb_spec (child_frame_id m) "NO_PARENT") as [E|E].
  - destruct Hok1 as (H0 & _). rewrite E in Hc1.
    assert (c = 0%nat) as -> by congruence. done.
  - assert (Hc0 : c ≠ 0%nat).
    { intros ->. destruct Hok1 as (H0 & _ & Hbij & _).
      apply Hbij in H0, Hc1. congruence. }
    destruct (Nat.eqb_spec c 0) as [|_]; [done|].
    destruct (registry_ok_cache _ _ Hok1 Hc_range Hc0) as [cache0 Hcache0].
    rewrite Hp4. rewrite (lookup_app_l_Some _ _ _ _ Hcache0). simpl.
    destruct (insertData cache0 _) as [[] cache']; eauto.
Qed.

(** X4.  Every buffer a program can hold (a new one, and whatever a returning
    [setTransform] leaves behind) has its registry in good order: "NO_PARENT"
    is frame 0, the table of names and the table of numbers are inverse to
    each other and as long as the vector of caches, and frame 0 alone has a
    null cache. *)
Lemma reachable_registry_ok s : reachable s → registry_ok s.
Proof.
  induction 1 as [extrapolation cache_time|s m authority b s' _ IH Hrun].
  - apply registry_ok_new.
  - eapply setTransform_registry_ok; eauto.
Qed.

End SetTransform.

(** ** Chain composition *)

Lemma for_loop_reverse {A B} (f : A → B → A) (l : list B) :
  ∀ (l2 l1 : list B) (acc : A),
    reverse l = l1 ++ l2 →
    for_loop (λ i acc, x ← at_index l (length l - 1 - i); Ret (f acc x))
      (length l1) (length l2) acc
    = Ret (foldl f acc l2).
Proof.
  induction l2 as [|x l2 IH]; intros l1 acc Hl; [reflexivity|].
  simpl.
  assert (Hlen : length l = (length l1 + S (length l2))%nat).
  { rewrite <- length_reverse, Hl, length_app. reflexivity. }
  assert (Hx : l !! (length l - 1 - length l1)%nat = Some x).
  { replace (length l - 1 - length l1)%nat
      with (length l - S (length l1))%nat by lia.
    rewrite <- reverse_lookup by lia. rewrite Hl.
    now apply list_lookup_middle. }
  assert (Ha : at_index l (length l - 1 - length l1) = Ret x).
  { unfold at_index. now rewrite Hx. }
  rewrite Ha. simpl.
  specialize (IH (l1 ++ [x]) (f acc x)).
  rewrite length_app in IH. simpl in IH.
  replace (length l1 + 1)%nat with (S (length l1)) in IH by lia.
  apply IH. now rewrite <- app_assoc.
Qed.

Section Composition.

Context {bt : Type} `{!BtTransformOps bt}.

Lemma computeTransformFromList_procedure (lists : TransformLists) :
  computeTransformFromList lists
  = Ret (compose_procedure (inverseTransforms lists)
           (forwardTransforms lists)).
Proof.
  unfold computeTransformFromList, compose_procedure.
  pose proof (for_loop_reverse
                (λ T i, bt_mul T (transformMsgToBT (ts_transform i)))
                (inverseTransforms lists) (reverse (inverseTransforms lists))
                [] bt_identity eq_refl) as H1.
  rewrite length_reverse in H1. simpl in H1. rewrite H1. simpl.
  pose proof (for_loop_reverse
                (λ T f,
                   bt_mul (bt_inverse (transformMsgToBT (ts_transform f))) T)
                (forwardTransforms lists) (reverse (forwardTransforms lists))
                []) as H2.
  rewrite length_reverse in H2. simpl in H2. now rewrite H2.
Qed.

Section Group.

Hypothesis laws : group_laws.

Lemma bt_inverse_unique (x y : bt) :
  bt_mul x y = bt_identity → y = bt_inverse x.
Proof.
  destruct laws as (assoc & idl & idr & invl & invr). intros H.
  rewrite <- (idl y), <- (invl x), assoc, H. apply idr.
Qed.

Lemma bt_inverse_mul (a b : bt) :
  bt_inverse (bt_mul a b) = bt_mul (bt_inverse b) (bt_inverse a).
Proof.
  symmetry. apply bt_inverse_unique.
  destruct laws as (assoc & idl & idr & invl & invr).
  rewrite assoc, <- (assoc b), invr, idl. apply invr.
Qed.

Lemma foldl_mul_product (l : list TransformStorage) (T : bt) :
  foldl (λ T i, bt_mul T (step_transform i)) T l
  = bt_mul T (foldr (λ x acc, bt_mul (step_transform x) acc) bt_identity l).
Proof.
  destruct laws as (assoc & idl & idr & invl & invr).
  revert T. induction l as [|x l IH]; intros T; simpl.
  - now rewrite idr.
  - rewrite IH. apply assoc.
Qed.

Lemma foldl_inverse_product (l : list TransformStorage) (T : bt) :
  foldl (λ T f, bt_mul (bt_inverse (step_transform f)) T) T l
  = bt_mul
      (bt_inverse
         (foldr (λ x acc, bt_mul (step_transform x) acc) bt_identity l))
      T.
Proof.
  pose proof bt_inverse_mul as Hinv.
  destruct laws as (assoc & idl & idr & invl & invr).
  revert T. induction l as [|x l IH]; intros T; simpl.
  - rewrite <- (idl (bt_inverse bt_identity)), invr. now rewrite idl.
  - rewrite IH, Hinv. now rewrite assoc.
Qed.

End Group.

(** C3.  The composed transform is the one the procedure gives: from the
    identity, multiplied on the right by the steps of the inverse list from
    the last to the first, then on the left by the inverses of the forward
    steps from the last to the first.  With the laws of a group this is the
    inverse of the product of the forward steps times the product of the
    inverse steps, both written from the root end. *)
Theorem computeTransformFromList_composition
    (inv fwd : list TransformStorage) :
  computeTransformFromList (mkTransformLists inv fwd)
  = Ret (compose_procedure inv fwd)
  ∧ (group_laws →
     compose_procedure inv fwd
     = bt_mul (bt_inverse (product_parent_first fwd))
              (product_parent_first inv)).
Proof.
  split; [apply computeTransformFromList_procedure|].
  intros laws. unfold compose_procedure, product_parent_first.
  rewrite (foldl_inverse_product laws), (foldl_mul_product laws).
  destruct laws as (_ & idl & _). now rewrite idl.
Qed.

End Composition.

(** ** One side of the walk *)

Section Walk.

Context {TC OT : Type} `{!TimeCacheOps TC}.
Variable MAX_GRAPH_DEPTH : nat.

Implicit Types s : BufferCore TC OT.

Lemma getFrame_cache s (f : nat) (cache : TC) :
  f ≠ 0%nat → frames_ s !! f = Some (Some cache) →
  getFrame s f = Ret (Some cache).
Proof.
  intros Hf Hc. unfold getFrame.
  destruct (Nat.eqb_spec f 0); [done|]. now rewrite Hc.
Qed.

(** The fuel of [walk] is never used up. *)
Lemma walk_loop_total (fuel : nat) :
  ∀ s (time : Time) (frame counter : nat) (steps : list TransformStorage),
    (counter ≤ S MAX_GRAPH_DEPTH)%nat →
    (S (S MAX_GRAPH_DEPTH) ≤ fuel + counter)%nat →
    walk_loop MAX_GRAPH_DEPTH fuel s time frame counter steps
    ≠ Fault Diverged.
Proof.
  induction fuel as [|fuel IH]; intros s time frame counter steps Hc Hf.
  - lia.
  - simpl. destruct (getFrame s frame) as [[cache|]| |[]] eqn:Hg;
      simpl; try done.
    + destruct (getData cache time) as [temp|]; [|done].
      destruct (frame =? 0)%nat; [done|].
      destruct (Nat.ltb_spec MAX_GRAPH_DEPTH counter); [done|].
      apply IH; lia.
    + unfold getFrame in Hg. destruct (frame =? 0)%nat; [done|].
      destruct (frames_ s !! frame); done.
Qed.

Lemma walk_total s (time : Time) (frame : nat) :
  walk MAX_GRAPH_DEPTH s time frame ≠ Fault Diverged.
Proof. apply walk_loop_total; lia. Qed.

(** The number of steps a side can push. *)
Lemma walk_loop_length (fuel : nat) :
  ∀ s (time : Time) (frame counter : nat) (steps : list TransformStorage) r,
    length steps = counter →
    (counter ≤ S MAX_GRAPH_DEPTH)%nat →
    walk_loop MAX_GRAPH_DEPTH fuel s time frame counter steps = Ret r →
    match r with
    | Terminated st _ => (length st ≤ S MAX_GRAPH_DEPTH)%nat
    | TooDeep st => length st = S (S MAX_GRAPH_DEPTH)
    end.
Proof.
  induction fuel as [|fuel IH]; intros s time frame counter steps r Hl Hc Hr.
  - discriminate.
  - simpl in Hr. destruct (getFrame s frame) as [[cache|]| |]; try done.
    simpl in Hr. destruct (getData cache time) as [temp|].
    2:{ injection Hr as <-. lia. }
    destruct (frame =? 0)%nat.
    { injection Hr as <-. lia. }
    destruct (Nat.ltb_spec MAX_GRAPH_DEPTH counter).
    + injection Hr as <-. rewrite length_app. simpl. lia.
    + eapply IH; [| |exact Hr].
      * rewrite length_app. simpl. lia.
      * lia.
Qed.

(** A side that finds its samples linked up to a frame without data pushes
    them all, as long as there are at most [MAX_GRAPH_DEPTH + 1] of them. *)
Lemma walk_loop_linked s (time : Time) (f : nat)
    (steps : list TransformStorage) (g : nat) :
  linked s time f steps g →
  no_data s time g →
  ∀ (fuel counter : nat) (acc : list TransformStorage),
    (counter + length steps ≤ S MAX_GRAPH_DEPTH)%nat →
    (S (S MAX_GRAPH_DEPTH) ≤ fuel + counter)%nat →
    walk_loop MAX_GRAPH_DEPTH fuel s time f counter acc
    = Ret (Terminated (acc ++ steps) g).
Proof.
  intros Hlink (Hg0 & cacheg & Hcg & Hdg).
  induction Hlink as [f|f cache temp steps g Hf Hc Hd Hlink IH];
    intros fuel counter acc Hlen Hfuel.
  - destruct fuel as [|fuel]; [lia|]. simpl.
    rewrite (getFrame_cache _ _ _ Hg0 Hcg). simpl. rewrite Hdg.
    now rewrite app_nil_r.
  - destruct fuel as [|fuel]; [simpl in Hlen; lia|]. simpl.
    rewrite (getFrame_cache _ _ _ Hf Hc). simpl. rewrite Hd.
    destruct (Nat.eqb_spec f 0); [done|].
    simpl in Hlen.
    destruct (Nat.ltb_spec MAX_GRAPH_DEPTH counter); [lia|].
    rewrite IH by (done || lia). now rewrite <- app_assoc.
Qed.

(** With one sample more the side is given up. *)
Lemma walk_loop_too_deep s (time : Time) (f : nat)
    (steps : list TransformStorage) (g : nat) :
  linked s time f steps g →
  ∀ (fuel counter : nat) (acc : list TransformStorage),
    (counter ≤ S MAX_GRAPH_DEPTH)%nat →
    (counter + length steps = S (S MAX_GRAPH_DEPTH))%nat →
    (S (S MAX_GRAPH_DEPTH) ≤ fuel + counter)%nat →
    walk_loop MAX_GRAPH_DEPTH fuel s time f counter acc
    = Ret (TooDeep (acc ++ steps)).
Proof.
  induction 1 as [f|f cache temp steps g Hf Hc Hd Hlink IH];
    intros fuel counter acc Hcnt Hlen Hfuel.
  - simpl in Hlen. lia.
  - destruct fuel as [|fuel]; [lia|]. simpl.
    rewrite (getFrame_cache _ _ _ Hf Hc). simpl. rewrite Hd.
    destruct (Nat.eqb_spec f 0); [done|].
    simpl in Hlen.
    destruct (Nat.ltb_spec MAX_GRAPH_DEPTH counter).
    + destruct steps; [done|simpl in Hlen; lia].
    + rewrite IH by lia. now rewrite <- app_assoc.
Qed.

(** What a side that terminated has seen. *)
Lemma walk_loop_terminated (fuel : nat) :
  ∀ s (time : Time) (f counter : nat) (acc st : list TransformStorage)
    (last : nat),
    walk_loop MAX_GRAPH_DEPTH fuel s time f counter acc
    = Ret (Terminated st last) →
    ∃ steps, st = acc ++ steps ∧ linked s time f steps last
             ∧ no_data s time last.
Proof.
  induction fuel as [|fuel IH]; intros s time f counter acc st last Hr.
  - discriminate.
  - simpl in Hr. unfold getFrame in Hr.
    destruct (Nat.eqb_spec f 0) as [|Hf]; [discriminate|].
    destruct (frames_ s !! f) as [[cache|]|] eqn:Hc; try discriminate.
    simpl in Hr. destruct (getData cache time) as [temp|] eqn:Hd.
    + destruct (MAX_GRAPH_DEPTH <? counter)%nat; [discriminate|].
      apply IH in Hr as (steps & -> & Hlink & Hnd).
      exists (temp :: steps). rewrite <- app_assoc. split; [done|].
      split; [|done]. econstructor; eauto.
    + injection Hr as <- <-. exists []. rewrite app_nil_r.
      split; [done|]. split; [constructor|]. split; [done|]. eauto.
Qed.

Lemma linked_last s (time : Time) (f : nat) (steps : list TransformStorage)
    (g : nat) :
  linked s time f steps g →
  ∀ x, last steps = Some x → g = frame_id_num_ x.
Proof.
  induction 1 as [f|f cache temp steps g Hf Hc Hd Hlink IH]; intros x Hx.
  - discriminate.
  - destruct steps as [|y steps].
    + injection Hx as <-. now inversion Hlink.
    + apply IH. now rewrite last_cons_cons in Hx.
Qed.

(** A sample whose parent is frame 0 sends the side to the null cache of
    frame 0, whatever the cache implementation and the depth bound. *)
Lemma walk_to_frame_0 s (time : Time) (f : nat) (cache : TC)
    (temp : TransformStorage) :
  f ≠ 0%nat →
  frames_ s !! f = Some (Some cache) →
  getData cache time = Some temp →
  frame_id_num_ temp = 0%nat →
  walk MAX_GRAPH_DEPTH s time f = Fault AssertionFailed.
Proof.
  intros Hf Hc Hd Hp. unfold walk. simpl.
  rewrite (getFrame_cache _ _ _ Hf Hc). simpl. rewrite Hd.
  destruct (Nat.eqb_spec f 0); [done|]. rewrite Hp. reflexivity.
Qed.

(** C6.  How far one side goes: samples linked from [f] up to a frame
    without data are all pushed and the side terminates there when they are
    at most [MAX_GRAPH_DEPTH + 1]; the side is given up as a loop when
    [MAX_GRAPH_DEPTH + 2] samples have been pushed.  In both cases the side
    returns. *)
Theorem walk_depth_bound s (time : Time) (f : nat)
    (steps : list TransformStorage) (g : nat) :
  linked s time f steps g →
  (no_data s time g → (length steps ≤ S MAX_GRAPH_DEPTH)%nat →
   walk MAX_GRAPH_DEPTH s time f = Ret (Terminated steps g))
  ∧ (length steps = S (S MAX_GRAPH_DEPTH) →
     walk MAX_GRAPH_DEPTH s time f = Ret (TooDeep steps)).
Proof.
  intros Hlink. split.
  - intros Hnd Hlen. unfold walk.
    now rewrite (walk_loop_linked _ _ _ _ _ Hlink Hnd) by (simpl; lia).
  - intros Hlen. unfold walk.
    now rewrite (walk_loop_too_deep _ _ _ _ _ Hlink) by (simpl; lia).
Qed.

End Walk.

(** ** Both sides of the walk *)

Section Connect.

Context {TC OT : Type} `{!TimeCacheOps TC}.
Variable MAX_GRAPH_DEPTH : nat.

Implicit Types s : BufferCore TC OT.

Lemma lookupFrameNumber_Some s (name : string) (n : nat) :
  frameIDs_ s !! name = Some n → lookupFrameNumber s name = Ret n.
Proof. intros H. unfold lookupFrameNumber. now rewrite H. Qed.

Lemma same_child_numbers s (a b : TransformStorage) (n k : nat) :
  frameIDs_ s !! ts_child a = Some n → frameIDs_ s !! ts_child b = Some k →
  same_child s a b ↔ n = k.
Proof.
  intros Ha Hb. split.
  - intros (x & Hx & Hy). congruence.
  - intros <-. now exists n.
Qed.

Lemma pop_loop_cons s (i f : TransformStorage)
    (ri rf : list TransformStorage) (a b : nat) :
  frameIDs_ s !! ts_child i = Some a → frameIDs_ s !! ts_child f = Some b →
  pop_loop s (i :: ri) (f :: rf)
  = if (a =? b)%nat then
      match ri, rf with
      | [], _ | _, [] => Ret (result_rev NO_ERROR ri rf None)
      | _, _ =>
          catch_tf_lookup (pop_loop s ri rf)
            (λ what,
               Ret (result_rev LOOKUP_ERROR (i :: ri) (f :: rf) (Some what)))
      end
    else Ret (result_rev NO_ERROR (i :: ri) (f :: rf) None).
Proof.
  intros Ha Hb. simpl.
  rewrite (lookupFrameNumber_Some _ _ _ Ha),
    (lookupFrameNumber_Some _ _ _ Hb). simpl.
  destruct (a =? b)%nat; [|reflexivity].
  destruct ri; [reflexivity|]. destruct rf; reflexivity.
Qed.

(** The loop pops the pairs of steps with the same child, from the back,
    until the children differ or one side is used up. *)
Lemma pop_loop_spec s :
  ∀ ri rf : list TransformStorage,
    ri ≠ [] → rf ≠ [] →
    Forall (resolves s) ri → Forall (resolves s) rf →
    ∃ pi pf ri' rf',
      ri = pi ++ ri' ∧ rf = pf ++ rf'
      ∧ Forall2 (same_child s) pi pf
      ∧ pop_loop s ri rf = Ret (result_rev NO_ERROR ri' rf' None)
      ∧ match ri', rf' with
        | i :: _, f :: _ => ¬ same_child s i f
        | _, _ => True
        end.
Proof.
  induction ri as [|i ri IH]; intros rf Hri Hrf Fi Ff; [done|].
  destruct rf as [|f rf]; [done|].
  apply Forall_cons in Fi as [[[a Ha] _] Fi].
  apply Forall_cons in Ff as [[[b Hb] _] Ff].
  rewrite (pop_loop_cons s i f ri rf a b Ha Hb).
  destruct (Nat.eqb_spec a b) as [<-|Hab].
  - assert (Hsame : same_child s i f) by now exists a.
    destruct ri as [|i' ri].
    { exists [i], [f], [], rf. repeat split; try done.
      repeat constructor. done. }
    destruct rf as [|f' rf].
    { exists [i], [f], (i' :: ri), []. repeat split; try done.
      repeat constructor. done. }
    destruct (IH (f' :: rf)) as (pi & pf & ri' & rf' & E1 & E2 & F2 & Hp & Hs);
      try done.
    exists (i :: pi), (f :: pf), ri', rf'.
    rewrite Hp, E1, E2. repeat split; try done.
    now constructor.
  - exists [], [], (i :: ri), (f :: rf). repeat split; try done.
    intros Hsame. apply Hab.
    now apply (same_child_numbers s i f a b Ha Hb).
Qed.

Lemma pop_loop_popped s (inv fwd : list TransformStorage) :
  inv ≠ [] → fwd ≠ [] →
  Forall (resolves s) inv → Forall (resolves s) fwd →
  ∃ inv' fwd',
    pop_loop s (reverse inv) (reverse fwd)
    = Ret (mkLookupResult NO_ERROR (mkTransformLists inv' fwd') None)
    ∧ popped s inv fwd inv' fwd'.
Proof.
  intros Hi Hf Fi Ff.
  destruct (pop_loop_spec s (reverse inv) (reverse fwd))
    as (pi & pf & ri' & rf' & E1 & E2 & F2 & Hp & Hs).
  - intros E. apply Hi. apply (f_equal reverse) in E.
    now rewrite reverse_involutive in E.
  - intros E. apply Hf. apply (f_equal reverse) in E.
    now rewrite reverse_involutive in E.
  - now apply Forall_reverse.
  - now apply Forall_reverse.
  - exists (reverse ri'), (reverse rf'). split; [exact Hp|].
    exists (reverse pi), (reverse pf).
    apply (f_equal reverse) in E1, E2.
    rewrite reverse_involutive, reverse_app in E1, E2.
    split; [done|]. split; [done|]. split; [now apply Forall2_reverse|].
    rewrite !last_reverse. destruct ri', rf'; simpl; done.
Qed.

(** A side that returned began at a frame with a cache. *)
Lemma walk_getFrame s (time : Time) (f : nat) r :
  walk MAX_GRAPH_DEPTH s time f = Ret r →
  ∃ cache, getFrame s f = Ret (Some cache).
Proof.
  unfold walk. simpl. destruct (getFrame s f) as [[cache|]| |]; try done.
  eauto.
Qed.

(** After both sides have terminated, [lookupLists] is [connect]. *)
Lemma lookupLists_terminated s (time : Time) (target source : nat)
    (inv fwd : list TransformStorage) (li lf : nat) :
  target ≠ source →
  walk MAX_GRAPH_DEPTH s time source = Ret (Terminated inv li) →
  walk MAX_GRAPH_DEPTH s time target = Ret (Terminated fwd lf) →
  lookupLists MAX_GRAPH_DEPTH s target time source
  = connect s target source inv li fwd lf.
Proof.
  intros Hne Hi Hf. unfold lookupLists.
  destruct (Nat.eqb_spec target source); [done|].
  destruct (walk_getFrame _ _ _ _ Hi) as [ci ->].
  destruct (walk_getFrame _ _ _ _ Hf) as [cf Hcf].
  simpl. rewrite Hi. simpl. rewrite Hcf. simpl. now rewrite Hf.
Qed.

Lemma reverse_nil_inv {A} (l : list A) : reverse l = [] → l = [].
Proof.
  intros E. apply (f_equal reverse) in E. now rewrite reverse_involutive in E.
Qed.

Lemma reverse_cons_last {A} (l r : list A) (x : A) :
  reverse l = x :: r → last l = Some x ∧ l ≠ [].
Proof.
  intros E. rewrite <- head_reverse, E. split; [done|].
  intros ->. discriminate.
Qed.

Lemma popped_same s (inv fwd : list TransformStorage) :
  inv = [] ∨ fwd = [] → popped s inv fwd inv fwd.
Proof.
  intros H. exists [], []. rewrite !app_nil_r.
  split; [done|]. split; [done|]. split; [constructor|].
  destruct H as [-> | ->]; simpl; [done|]. now destruct (last inv).
Qed.

(** C4.  Two different frames whose sides have both terminated, with all the
    names of the steps in the registry: the walk answers CONNECTIVITY_ERROR
    or NO_ERROR.  It is CONNECTIVITY_ERROR when both lists are empty; when
    only the inverse list is empty and the forward side did not end at the
    source; when only the forward list is empty and the parent name of the
    last inverse step is not the target; when both have steps and the sides
    ended at different frames or the child name of the last step of a side
    has number 0.  Otherwise it is NO_ERROR, and the lists are the two sides
    without the steps they share at the back. *)
Theorem lookupLists_connectivity s (time : Time) (target source : nat)
    (inv fwd : list TransformStorage) (li lf : nat) :
  target ≠ source →
  walk MAX_GRAPH_DEPTH s time source = Ret (Terminated inv li) →
  walk MAX_GRAPH_DEPTH s time target = Ret (Terminated fwd lf) →
  is_Some (frameIDs_reverse s !! target) →
  is_Some (frameIDs_reverse s !! source) →
  Forall (resolves s) (inv ++ fwd) →
  ∃ r, lookupLists MAX_GRAPH_DEPTH s target time source = Ret r
    ∧ (retval r = NO_ERROR ∨ retval r = CONNECTIVITY_ERROR)
    ∧ (inv = [] → fwd = [] → retval r = CONNECTIVITY_ERROR)
    ∧ (inv = [] → fwd ≠ [] →
       (retval r = CONNECTIVITY_ERROR ↔ lf ≠ source))
    ∧ (∀ i n, fwd = [] → last inv = Some i →
              frameIDs_ s !! ts_frame_id i = Some n →
              li = frame_id_num_ i
              ∧ (retval r = CONNECTIVITY_ERROR ↔ n ≠ target))
    ∧ (∀ i f a b, last inv = Some i → last fwd = Some f →
                  frameIDs_ s !! ts_child i = Some a →
                  frameIDs_ s !! ts_child f = Some b →
                  (retval r = CONNECTIVITY_ERROR
                   ↔ lf ≠ li ∨ a = 0%nat ∨ b = 0%nat))
    ∧ (retval r = NO_ERROR →
       popped s inv fwd (inverseTransforms (lists r))
         (forwardTransforms (lists r)))
    ∧ (retval r = CONNECTIVITY_ERROR → lists r = mkTransformLists inv fwd).
Proof.
  intros Hne Hi Hf [tn Htn] [sn Hsn] Hres.
  rewrite (lookupLists_terminated s time target source inv fwd li lf)
    by done.
  apply Forall_app in Hres as [Fi Ff].
  unfold walk in Hi.
  apply walk_loop_terminated in Hi as (steps & Esteps & Hlink & _).
  simpl in Esteps. subst steps.
  unfold connect, lookupFrameString. rewrite Htn, Hsn. simpl.
  destruct (reverse inv) as [|i ri] eqn:Ei;
    destruct (reverse fwd) as [|f rf] eqn:Ef.
  - apply reverse_nil_inv in Ei, Ef. subst. eexists. split; [reflexivity|].
    simpl. repeat split; try done; auto; try discriminate.
  - apply reverse_nil_inv in Ei. apply reverse_cons_last in Ef as [Lf Nf].
    subst inv. destruct (Nat.eqb_spec lf source) as [->|Hd]; simpl;
      (eexists; split; [reflexivity|]); simpl.
    + split; [auto|]. split; [done|]. split; [intros _ _; split; done|].
      split; [done|]. split; [done|]. split; [|done].
      intros _. apply popped_same. now left.
    + split; [auto|]. split; [done|]. split; [done|].
      split; [done|]. split; [done|]. split; [done|]. done.
  - apply reverse_cons_last in Ei as [Li Ni]. apply reverse_nil_inv in Ef.
    subst fwd.
    assert (Hi' := Li). apply last_Some_elem_of in Hi'.
    rewrite Forall_forall in Fi. destruct (Fi _ Hi') as [_ [n Hn]].
    rewrite (lookupFrameNumber_Some _ _ _ Hn). simpl.
    assert (Hli := linked_last _ _ _ _ _ Hlink _ Li).
    destruct (Nat.eqb_spec n target) as [->|Hd]; simpl;
      (eexists; split; [reflexivity|]); simpl.
    + split; [auto|]. split; [done|]. split; [done|].
      split.
      { intros i' n' _ Hl Hn'. assert (i' = i) as -> by congruence.
        split; [done|]. split; [done|]. intros Hx. congruence. }
      split; [done|]. split; [|done].
      intros _. apply popped_same. now right.
    + split; [auto|]. split; [done|]. split; [done|].
      split.
      { intros i' n' _ Hl Hn'. assert (i' = i) as -> by congruence.
        split; [done|]. split; [intros _; congruence|done]. }
      split; [done|]. split; [done|]. done.
  - pose proof Ei as Ei'. pose proof Ef as Ef'.
    apply reverse_cons_last in Ei as [Li Ni].
    apply reverse_cons_last in Ef as [Lf Nf].
    assert (Hi' := Li). apply last_Some_elem_of in Hi'.
    assert (Hf' := Lf). apply last_Some_elem_of in Hf'.
    destruct (pop_loop_popped s inv fwd Ni Nf Fi Ff)
      as (inv' & fwd' & Hp & Hpop).
    rewrite Ei', Ef' in Hp. rewrite Hp. clear Hp.
    rewrite Forall_forall in Fi, Ff.
    destruct (Fi _ Hi') as [[a Ha] _]. destruct (Ff _ Hf') as [[b Hb] _].
    assert (Hcases : ∀ r, retval r = NO_ERROR ∨ retval r = CONNECTIVITY_ERROR →
      (retval r = CONNECTIVITY_ERROR ↔ lf ≠ li ∨ a = 0%nat ∨ b = 0%nat) →
      (retval r = NO_ERROR →
       popped s inv fwd (inverseTransforms (lists r))
         (forwardTransforms (lists r))) →
      (retval r = CONNECTIVITY_ERROR → lists r = mkTransformLists inv fwd) →
      (retval r = NO_ERROR ∨ retval r = CONNECTIVITY_ERROR)
      ∧ (inv = [] → fwd = [] → retval r = CONNECTIVITY_ERROR)
      ∧ (inv = [] → fwd ≠ [] →
         (retval r = CONNECTIVITY_ERROR ↔ lf ≠ source))
      ∧ (∀ i n, fwd = [] → last inv = Some i →
                frameIDs_ s !! ts_frame_id i = Some n →
                li = frame_id_num_ i
                ∧ (retval r = CONNECTIVITY_ERROR ↔ n ≠ target))
      ∧ (∀ i f a b, last inv = Some i → last fwd = Some f →
                    frameIDs_ s !! ts_child i = Some a →
                    frameIDs_ s !! ts_child f = Some b →
                    (retval r = CONNECTIVITY_ERROR
                     ↔ lf ≠ li ∨ a = 0%nat ∨ b = 0%nat))
      ∧ (retval r = NO_ERROR →
         popped s inv fwd (inverseTransforms (lists r))
           (forwardTransforms (lists r)))
      ∧ (retval r = CONNECTIVITY_ERROR → lists r = mkTransformLists inv fwd)).
    { intros r H1 H2 H3 H4. split; [done|]. split; [done|]. split; [done|].
      split; [intros ? ? ->; done|]. split; [|done].
      intros i' f' a' b' Hl1 Hl2 Ha' Hb'.
      assert (i' = i) as -> by congruence.
      assert (f' = f) as -> by congruence.
      assert (a' = a) as -> by congruence.
      assert (b' = b) as -> by congruence. done. }
    destruct (Nat.eqb_spec lf li) as [->|Hd]; simpl.
    2:{ eexists; split; [reflexivity|]. apply Hcases; simpl; auto.
        - split; auto.
        - done. }
    rewrite (lookupFrameNumber_Some _ _ _ Ha). simpl.
    destruct (Nat.eqb_spec a 0) as [->|Ha0]; simpl.
    { eexists; split; [reflexivity|]. apply Hcases; simpl; auto.
      - split; auto.
      - done. }
    rewrite (lookupFrameNumber_Some _ _ _ Hb). simpl.
    destruct (Nat.eqb_spec b 0) as [->|Hb0]; simpl.
    { eexists; split; [reflexivity|]. apply Hcases; simpl; auto.
      - split; auto.
      - done. }
    eexists; split; [reflexivity|].
    apply Hcases; simpl; auto.
    + split; [done|]. intros [H|[H|H]]; done.
    + done.
Qed.

End Connect.

(** ** Latest common time *)

Lemma earliest_spec (l : list TransformStorage) :
  ∀ t0 : Time,
    earliest t0 l ≤ t0
    ∧ (∀ tr, tr ∈ l → earliest t0 l ≤ ts_stamp tr)
    ∧ (earliest t0 l = t0 ∨ ∃ tr, tr ∈ l ∧ ts_stamp tr = earliest t0 l).
Proof.
  induction l as [|x l IH]; intros t0; simpl.
  - split; [lia|]. split; [|now left]. intros tr H. inversion H.
  - set (t1 := if ts_stamp x <? t0 then ts_stamp x else t0).
    assert (Ht1 : t1 ≤ t0 ∧ t1 ≤ ts_stamp x
                  ∧ (t1 = t0 ∨ t1 = ts_stamp x)).
    { unfold t1. destruct (Z.ltb_spec (ts_stamp x) t0); lia. }
    destruct (IH t1) as (H1 & H2 & H3).
    change (earliest t0 (x :: l)) with (earliest t1 l).
    split; [lia|]. split.
    + intros tr [->|Hin]%elem_of_cons; [lia|]. now apply H2.
    + destruct H3 as [H3|(tr & Hin & Htr)].
      * destruct Ht1 as (_ & _ & [E|E]); [left; lia|].
        right. exists x. split; [left|]. lia.
      * right. exists tr. split; [now right|done].
Qed.

Lemma earliest_app (t0 : Time) (l1 l2 : list TransformStorage) :
  earliest (earliest t0 l1) l2 = earliest t0 (l1 ++ l2).
Proof. unfold earliest. now rewrite foldl_app. Qed.

Section LatestCommonTime.

Context {TC OT : Type} `{!TimeCacheOps TC}.
Variable MAX_GRAPH_DEPTH : nat.

Implicit Types s : BufferCore TC OT.

(** C5.  [getLatestCommonTime] runs the walk at the zero instant.  When the
    walk returns without error and with both lists empty, the time is the
    unset one and there is no error; with a step in the lists, the time is
    the earliest stamp of the samples of both lists (the stamps of
    [ros::Time] are at most [TIME_MAX]); when the walk returns an error, the
    error is returned and the time is zero.  A name that is not registered
    gives LOOKUP_ERROR and the time zero, and a registered name with itself
    gives the unset time without error. *)
Theorem getLatestCommonTime_spec s (a b : string) :
  (∀ r, latest_walk MAX_GRAPH_DEPTH s a b = Ret r →
        ∃ t, getLatestCommonTime MAX_GRAPH_DEPTH s a b
             = Ret (retval r, t, error_string r)
          ∧ (retval r = NO_ERROR →
             inverseTransforms (lists r) = [] →
             forwardTransforms (lists r) = [] → t = Time_unset)
          ∧ (retval r = NO_ERROR →
             inverseTransforms (lists r) ++ forwardTransforms (lists r) ≠ [] →
             (∀ tr, tr ∈ inverseTransforms (lists r)
                            ++ forwardTransforms (lists r) →
                    ts_stamp tr ≤ TIME_MAX) →
             earliest_stamp
               (inverseTransforms (lists r) ++ forwardTransforms (lists r)) t)
          ∧ (retval r ≠ NO_ERROR → t = 0))
  ∧ (frameIDs_ s !! a = None ∨ frameIDs_ s !! b = None →
     ∃ what, getLatestCommonTime MAX_GRAPH_DEPTH s a b
             = Ret (LOOKUP_ERROR, 0, Some what))
  ∧ (a = b → is_Some (frameIDs_ s !! a) →
     getLatestCommonTime MAX_GRAPH_DEPTH s a b
     = Ret (NO_ERROR, Time_unset, None)).
Proof.
  split; [|split].
  - intros r Hr. unfold latest_walk in Hr. unfold getLatestCommonTime.
    rewrite Hr. destruct (decide (retval r = NO_ERROR)) as [E|E].
    + destruct (inverseTransforms (lists r)) as [|i inv] eqn:Ei.
      * destruct (forwardTransforms (lists r)) as [|f fwd] eqn:Ef.
        -- eexists. split; [reflexivity|]. repeat split; try done.
        -- eexists. split; [reflexivity|]. split; [done|]. split; [|done].
           intros _ _ Hmax. simpl app. simpl app in Hmax.
           destruct (earliest_spec (f :: fwd) TIME_MAX) as (H1 & H2 & H3).
           change (earliest TIME_MAX []) with TIME_MAX.
           split; [|done]. destruct H3 as [H3|H3]; [|done].
           exists f. split; [left|].
           specialize (H2 f ltac:(left)). specialize (Hmax f ltac:(left)).
           lia.
      * eexists. split; [reflexivity|]. split; [done|]. split; [|done].
        intros _ _ Hmax. rewrite earliest_app.
        destruct (earliest_spec ((i :: inv) ++ forwardTransforms (lists r))
                    TIME_MAX) as (H1 & H2 & H3).
        split; [|done]. destruct H3 as [H3|H3]; [|done].
        exists i. split; [left|].
        specialize (H2 i ltac:(left)). specialize (Hmax i ltac:(left)).
        lia.
    + eexists. split; [reflexivity|]. repeat split; done.
  - intros H. unfold getLatestCommonTime, lookupFrameNumber.
    destruct (frameIDs_ s !! b) as [nb|] eqn:Eb; simpl.
    + destruct (frameIDs_ s !! a) as [na|] eqn:Ea; simpl.
      * destruct H; discriminate.
      * eauto.
    + eauto.
  - intros <- [n Hn]. unfold getLatestCommonTime, lookupFrameNumber.
    rewrite Hn. simpl. unfold lookupLists. rewrite Nat.eqb_refl.
    reflexivity.
Qed.

End LatestCommonTime.

(** ** The extrapolation test *)

Section Extrapolation.

Context {TC OT bt : Type} `{!TimeCacheOps TC, !BtTransformOps bt}.
Variable MAX_GRAPH_DEPTH : nat.

Implicit Types s : BufferCore TC OT.

Lemma Duration_wrap_exact (d : Z) :
  - DURATION_RANGE ≤ d < DURATION_RANGE → Duration_wrap d = d.
Proof.
  intros Hd. unfold Duration_wrap.
  rewrite Z.mod_small by (unfold DURATION_RANGE in *; lia). lia.
Qed.

Lemma Time_minus_exact (a b : Time) :
  within_a_duration a b → Time_minus a b = a - b ∧ Time_minus b a = b - a.
Proof.
  unfold within_a_duration, Time_minus. intros Hd.
  split; apply Duration_wrap_exact; lia.
Qed.

Lemma beyond_limit_distance (limit : Duration) (t : Time)
    (tr : TransformStorage) :
  within_a_duration t (ts_stamp tr) →
  beyond_limit limit t tr ↔ distance_beyond limit t tr.
Proof.
  intros Hd. destruct (Time_minus_exact _ _ Hd) as [E1 E2].
  unfold beyond_limit, distance_beyond.
  destruct (mode_ tr); rewrite ?E1, ?E2; try tauto; lia.
Qed.

Lemma test_extrapolation_step_beyond s (t : Time) (tr : TransformStorage) :
  is_Some (test_extrapolation_step s t tr)
  ↔ beyond_limit (max_extrapolation_distance_ s) t tr.
Proof.
  unfold test_extrapolation_step, test_extrapolation_one_value,
    test_extrapolation_past, test_extrapolation_future, beyond_limit.
  destruct (mode_ tr); simpl;
    repeat match goal with
           | |- context [(?a <? ?b)] => destruct (Z.ltb_spec a b)
           end; simpl;
    split; intros Hx; try (now destruct Hx); try lia; eauto.
Qed.

Lemma test_extrapolation_list_beyond s (t : Time)
    (l : list TransformStorage) :
  is_Some (test_extrapolation_list s t l)
  ↔ ∃ tr, tr ∈ l ∧ beyond_limit (max_extrapolation_distance_ s) t tr.
Proof.
  induction l as [|x l IH]; simpl.
  - split; [intros [? ?]; discriminate|]. intros (tr & H & _). inversion H.
  - pose proof (test_extrapolation_step_beyond s t x) as Hx.
    destruct (test_extrapolation_step s t x) as [what|].
    + split; [|eauto]. intros _. exists x. split; [left|]. apply Hx. eauto.
    + rewrite IH. split.
      * intros (tr & Hin & Hb). exists tr. split; [now right|done].
      * intros (tr & [->|Hin]%elem_of_cons & Hb).
        -- apply Hx in Hb. destruct Hb; discriminate.
        -- eauto.
Qed.

Lemma test_extrapolation_beyond s (t : Time) (lists : TransformLists) :
  is_Some (test_extrapolation s t lists)
  ↔ ∃ tr, tr ∈ inverseTransforms lists ++ forwardTransforms lists
          ∧ beyond_limit (max_extrapolation_distance_ s) t tr.
Proof.
  unfold test_extrapolation.
  pose proof (test_extrapolation_list_beyond s t (inverseTransforms lists))
    as Hi.
  pose proof (test_extrapolation_list_beyond s t (forwardTransforms lists))
    as Hf.
  destruct (test_extrapolation_list s t (inverseTransforms lists)).
  - split; [|eauto]. intros _. destruct Hi as [Hi _].
    destruct Hi as (tr & Hin & Hb); [eauto|].
    exists tr. split; [|done]. apply elem_of_app. now left.
  - rewrite Hf. split.
    + intros (tr & Hin & Hb). exists tr. split; [|done].
      apply elem_of_app. now right.
    + intros (tr & [Hin|Hin]%elem_of_app & Hb); [|eauto].
      destruct Hi as [_ Hi]. destruct Hi; [eauto|discriminate].
Qed.

(** C2.  The test of one step compares the differences of the instants as
    durations, which wrap around at 2^31 s: it fails exactly for a sample
    beyond the limit in these durations, and never for EXACT or
    INTERPOLATED.  For a sample less than 2^31 s from [t] that is: ONE_VALUE
    further than the limit from [t] on either side, EXTRAPOLATE_BACK with the
    sample more than the limit after [t], EXTRAPOLATE_FORWARD with [t] more
    than the limit after the sample.  The test of the lists fails exactly
    when a sample of either list fails.  When the walk of [lookupTransform]
    has produced its lists and one of their samples fails the test at the
    time looked at, [lookupTransform] throws an ExtrapolationException, or a
    ConnectivityException when the time asked for was the zero instant. *)
Theorem test_extrapolation_raises s :
  (∀ (t : Time) (tr : TransformStorage),
     (is_Some (test_extrapolation_step s t tr)
      ↔ beyond_limit (max_extrapolation_distance_ s) t tr)
     ∧ (within_a_duration t (ts_stamp tr) →
        is_Some (test_extrapolation_step s t tr)
        ↔ distance_beyond (max_extrapolation_distance_ s) t tr))
  ∧ (∀ (t : Time) (lists : TransformLists),
       is_Some (test_extrapolation s t lists)
       ↔ ∃ tr, tr ∈ inverseTransforms lists ++ forwardTransforms lists
               ∧ is_Some (test_extrapolation_step s t tr))
  ∧ (∀ (target source : string) (time temp_time : Time)
       (lists : TransformLists) (code : TF2Error) (what : option diagnostic)
       (tr : TransformStorage),
       source ≠ target →
       lookup_walk MAX_GRAPH_DEPTH s target source time
       = Ret (code, temp_time, lists, what) →
       code ≠ LOOKUP_ERROR → code ≠ CONNECTIVITY_ERROR →
       tr ∈ inverseTransforms lists ++ forwardTransforms lists →
       is_Some (test_extrapolation_step s temp_time tr) →
       if time =? Time_unset
       then lookupTransform MAX_GRAPH_DEPTH s target source time
            = Throw (tf2_ConnectivityException
                       (Some (diag_no_common_time source target)))
       else ∃ why, lookupTransform MAX_GRAPH_DEPTH s target source time
                   = Throw (tf2_ExtrapolationException (Some why))).
Proof.
  split; [|split].
  - intros t tr. split; [apply test_extrapolation_step_beyond|].
    intros Hd. rewrite test_extrapolation_step_beyond.
    now apply beyond_limit_distance.
  - intros t lists. rewrite test_extrapolation_beyond.
    split; intros (tr & Hin & Hb); exists tr; (split; [done|]);
      now apply test_extrapolation_step_beyond.
  - intros target source time temp_time lists code what tr
      Hne Hw Hc1 Hc2 Hin Hb.
    apply test_extrapolation_step_beyond in Hb.
    unfold lookupTransform.
    destruct (String.eqb_spec source target) as [|_]; [done|].
    rewrite Hw. simpl.
    destruct (decide (code = LOOKUP_ERROR)); [done|].
    destruct (decide (code = CONNECTIVITY_ERROR)); [done|].
    destruct (test_extrapolation_beyond s temp_time lists) as [_ H].
    destruct H as [why Hwhy]; [eauto|]. rewrite Hwhy.
    destruct (time =? Time_unset); eauto.
Qed.

End Extrapolation.

(** ** The queries *)

Section Queries.

Context {TC OT bt : Type} `{!TimeCacheOps TC, !BtTransformOps bt}.
Variable MAX_GRAPH_DEPTH : nat.

Implicit Types s : BufferCore TC OT.

Lemma pop_loop_codes s :
  ∀ (ri rf : list TransformStorage) r,
    pop_loop s ri rf = Ret r → walk_code (retval r).
Proof.
  unfold walk_code.
  induction ri as [|i ri IH]; intros rf r Hr; [discriminate|].
  destruct rf as [|f rf]; [discriminate|].
  simpl in Hr. unfold lookupFrameNumber in Hr.
  destruct (frameIDs_ s !! ts_child i) as [a|]; simpl in Hr.
  2:{ injection Hr as <-. auto. }
  destruct (frameIDs_ s !! ts_child f) as [b|]; simpl in Hr.
  2:{ injection Hr as <-. auto. }
  destruct (a =? b)%nat.
  2:{ injection Hr as <-. auto. }
  destruct ri as [|i' ri].
  { injection Hr as <-. auto. }
  destruct rf as [|f' rf].
  { injection Hr as <-. auto. }
  destruct (pop_loop s (i' :: ri) (f' :: rf)) as [r'|e|] eqn:E.
  - injection Hr as <-. now apply (IH (f' :: rf)).
  - destruct e; simpl in Hr; try discriminate. injection Hr as <-. auto.
  - discriminate.
Qed.

Lemma connect_codes s (target source : nat)
    (inv fwd : list TransformStorage) (li lf : nat) r :
  connect s target source inv li fwd lf = Ret r → walk_code (retval r).
Proof.
  unfold connect, lookupFrameString, lookupFrameNumber, walk_code.
  destruct (frameIDs_reverse s !! target); [|discriminate].
  destruct (frameIDs_reverse s !! source); [|discriminate]. simpl.
  destruct (reverse inv) as [|i ri]; destruct (reverse fwd) as [|f rf].
  - intros [= <-]. auto.
  - destruct (negb _); intros [= <-]; auto.
  - destruct (frameIDs_ s !! ts_frame_id i); simpl.
    + destruct (negb _); intros [= <-]; auto.
    + intros [= <-]. auto.
  - remember (pop_loop s (i :: ri) (f :: rf)) as popping eqn:E.
    symmetry in E.
    destruct (negb _); [intros [= <-]; auto|].
    destruct (frameIDs_ s !! ts_child i) as [a|]; simpl.
    2:{ intros [= <-]. auto. }
    destruct (a =? 0)%nat; simpl.
    { intros [= <-]. auto. }
    destruct (frameIDs_ s !! ts_child f) as [b|]; simpl.
    2:{ intros [= <-]. auto. }
    destruct (b =? 0)%nat; simpl.
    { intros [= <-]. auto. }
    destruct popping as [r'|e|].
    + intros [= <-]. now apply pop_loop_codes in E.
    + destruct e; simpl; try discriminate. intros [= <-]. auto.
    + discriminate.
Qed.

Lemma lookupLists_codes s (target : nat) (time : Time) (source : nat) r :
  lookupLists MAX_GRAPH_DEPTH s target time source = Ret r →
  walk_code (retval r).
Proof.
  unfold lookupLists, walk_code.
  destruct (target =? source)%nat; [intros [= <-]; auto|].
  destruct (getFrame s source) as [[ci|]| |]; simpl; try discriminate.
  2:{ destruct (lookupFrameString s source); simpl; try discriminate.
      intros [= <-]. auto. }
  destruct (walk MAX_GRAPH_DEPTH s time source) as [[inv li|inv]| |];
    simpl; try discriminate.
  2:{ destruct (allFramesAsString s); simpl; try discriminate.
      intros [= <-]. auto. }
  destruct (getFrame s target) as [[cf|]| |]; simpl; try discriminate.
  2:{ destruct (lookupFrameString s target); simpl; try discriminate.
      intros [= <-]. auto. }
  destruct (walk MAX_GRAPH_DEPTH s time target) as [[fwd lf|fwd]| |];
    simpl; try discriminate.
  2:{ destruct (allFramesAsString s); simpl; try discriminate.
      intros [= <-]. auto. }
  apply connect_codes.
Qed.

Lemma getLatestCommonTime_codes s (a b : string) (code : TF2Error)
    (t : Time) (what : option diagnostic) :
  getLatestCommonTime MAX_GRAPH_DEPTH s a b = Ret (code, t, what) →
  walk_code code.
Proof.
  unfold getLatestCommonTime.
  destruct (_ ≫= _) as [r|e|] eqn:E.
  - assert (Hc : walk_code (retval r)).
    { destruct (lookupFrameNumber s b); simpl in E; try discriminate.
      destruct (lookupFrameNumber s a); simpl in E; try discriminate.
      now apply lookupLists_codes in E. }
    destruct (decide (retval r = NO_ERROR)).
    + destruct (inverseTransforms (lists r)), (forwardTransforms (lists r));
        intros [= <- _ _]; done.
    + intros [= <- _ _]. done.
  - destruct e; try discriminate. intros [= <- _ _]. unfold walk_code. auto.
  - discriminate.
Qed.

(** The header of what the three-argument lookup returns. *)
Lemma lookupTransform_header s (target source : string) (time : Time)
    (r : TransformStamped) :
  lookupTransform MAX_GRAPH_DEPTH s target source time = Ret r →
  frame_id (header r) = target
  ∧ child_frame_id r = source
  ∧ (source = target ∨ time ≠ Time_unset → stamp (header r) = time)
  ∧ (source ≠ target → time = Time_unset →
     ∃ what, getLatestCommonTime MAX_GRAPH_DEPTH s target source
             = Ret (NO_ERROR, stamp (header r), what)).
Proof.
  unfold lookupTransform.
  destruct (String.eqb_spec source target) as [->|Hne].
  { intros [= <-]. simpl. repeat split; try done. }
  destruct (lookup_walk MAX_GRAPH_DEPTH s target source time)
    as [[[[code temp_time] t_list] what]|e|] eqn:Hw; simpl; try discriminate.
  destruct (decide (code = LOOKUP_ERROR)); [discriminate|].
  destruct (decide (code = CONNECTIVITY_ERROR)); [discriminate|].
  destruct (test_extrapolation s temp_time t_list).
  { destruct (time =? Time_unset); discriminate. }
  destruct (computeTransformFromList t_list) as [output| |]; simpl;
    try discriminate.
  intros [= <-]. simpl. split; [done|]. split; [done|].
  unfold lookup_walk in Hw.
  destruct (Z.eqb_spec time Time_unset) as [->|Ht].
  - destruct (getLatestCommonTime MAX_GRAPH_DEPTH s target source)
      as [[[code0 t0] what0]|e|] eqn:Hg; simpl in Hw; try discriminate.
    pose proof (getLatestCommonTime_codes _ _ _ _ _ _ Hg) as Hc.
    destruct (decide (code0 = NO_ERROR)) as [->|Hc0].
    + split; [intros [?|?]; done|]. intros _ _. exists what0.
      destruct (_ ≫= _) as [r'|e|] in Hw; try discriminate.
      * injection Hw as _ <- _ _. done.
      * destruct e; try discriminate. injection Hw as _ <- _ _. done.
    + injection Hw as <- _ _ _. unfold walk_code in Hc.
      destruct Hc as [?|[?|?]]; done.
  - simpl in Hw. split.
    + intros _. destruct (_ ≫= _) as [r'|e|] in Hw; try discriminate.
      * injection Hw as _ <- _ _. done.
      * destruct e; try discriminate. injection Hw as _ <- _ _. done.
    + intros _ E. done.
Qed.

(** C8.  When its two lookups return, the five-argument lookup returns the
    product of the transform from the fixed frame to the target with the one
    from the source to the fixed frame, named after the target and the
    source, with the stamp of the lookup from the fixed frame to the target.
    That stamp is the target time when the target time is not the zero
    instant or the target is the fixed frame; for the zero instant and a
    different fixed frame it is the latest common time of the target and the
    fixed frame. *)
Theorem lookupTransform_fixed_spec s (target : string) (target_time : Time)
    (source : string) (source_time : Time) (fixed : string)
    (temp1 temp2 : TransformStamped) :
  lookupTransform MAX_GRAPH_DEPTH s fixed source source_time = Ret temp1 →
  lookupTransform MAX_GRAPH_DEPTH s target fixed target_time = Ret temp2 →
  lookupTransform_fixed MAX_GRAPH_DEPTH s target target_time source
    source_time fixed
  = Ret (mkTransformStamped (mkHeader (stamp (header temp2)) target) source
           (transformTF2ToMsg
              (bt_mul (transformMsgToTF2 (transform temp2))
                      (transformMsgToTF2 (transform temp1)))))
  ∧ (fixed = target ∨ target_time ≠ Time_unset →
     stamp (header temp2) = target_time)
  ∧ (fixed ≠ target → target_time = Time_unset →
     ∃ what, getLatestCommonTime MAX_GRAPH_DEPTH s target fixed
             = Ret (NO_ERROR, stamp (header temp2), what)).
Proof.
  intros H1 H2. unfold lookupTransform_fixed. rewrite H1, H2. simpl.
  split; [done|].
  destruct (lookupTransform_header _ _ _ _ _ H2) as (_ & _ & H3 & H4).
  split; done.
Qed.

End Queries.

(** ** The properties at work on the example buffers *)

Section Witnesses.

#[local] Existing Instance no_legacy.
#[local] Existing Instance Examples.cache_ops.
#[local] Existing Instance Line.ops.

Import Examples.

Lemma publish_registry_ok (b : outcome Buffer) (m : TransformStamped) s' :
  registry_ok (the b) → b = Ret (the b) → publish b m = Ret s' →
  registry_ok s'.
Proof.
  intros Hok -> Hrun. unfold publish in Hrun. simpl in Hrun.
  destruct (setTransform (the b) m "example") as [[r s'']| |] eqn:E;
    try discriminate.
  injection Hrun as <-. eapply setTransform_registry_ok; eauto.
Qed.

Lemma late_registry_ok : registry_ok (the late).
Proof.
  apply (publish_registry_ok fresh (message "p" "a" 100000000000 0)).
  - apply registry_ok_new.
  - reflexivity.
  - reflexivity.
Qed.

(** A frame published as its own parent is refused and nothing changes. *)
Lemma setTransform_rejected_no_mutation_witness :
  rejected (message "a" "a" 5 0)
  ∧ ∃ s', setTransform (the one_link) (message "a" "a" 5 0) "me"
            = Ret (false, s')
          ∧ tf2_state s' = tf2_state (the one_link)
          ∧ cache_time s' = cache_time (the one_link)
          ∧ max_extrapolation_distance_ s'
            = max_extrapolation_distance_ (the one_link).
Proof.
  split; [left; reflexivity|].
  apply (setTransform_rejected_no_mutation (the one_link)
           (message "a" "a" 5 0) "me").
  left; reflexivity.
Defined.



(** *** The registry and the reachable buffers *)

Lemma publish_reachable (b : outcome Buffer) (m : TransformStamped) s' :
  reachable (the b) → b = Ret (the b) → publish b m = Ret s' →
  reachable s'.
Proof.
  intros Hreach -> Hrun. unfold publish in Hrun. simpl in Hrun.
  destruct (setTransform (the b) m "example") as [[r s'']| |] eqn:E;
    try discriminate.
  injection Hrun as <-. eapply reachable_set; eauto.
Qed.

Lemma rooted_reachable : reachable (the rooted).
Proof.
  apply (publish_reachable rooted_a (message "NO_PARENT" "b" 5 2));
    [|reflexivity|reflexivity].
  apply (publish_reachable fresh (message "NO_PARENT" "a" 5 1));
    [|reflexivity|reflexivity].
  apply reachable_new.
Qed.

(** C9.  The buffer [rooted] is reached by two calls of [setTransform] that
    name "NO_PARENT", frame 0, as the parent of "a" and of "b".  The walk
    from "a" pushes the sample of "a", moves to frame 0 and asks [getFrame]
    for its cache: the pointer is null and the assertion on it fails, for
    every depth bound.  So does the lookup between "b" and "a". *)
Theorem walk_dereferences_frame_0 :
  reachable (the rooted)
  ∧ frameIDs_ (the rooted) !! "NO_PARENT" = Some 0%nat
  ∧ frameIDs_ (the rooted) !! "a" = Some 1%nat
  ∧ frameIDs_ (the rooted) !! "b" = Some 2%nat
  ∧ ∀ MAX_GRAPH_DEPTH : nat,
      walk MAX_GRAPH_DEPTH (the rooted) 5 1 = Fault AssertionFailed
      ∧ lookupLists MAX_GRAPH_DEPTH (the rooted) 2 5 1
        = Fault AssertionFailed
      ∧ lookupTransform (bt:=Line.t) MAX_GRAPH_DEPTH (the rooted) "b" "a" 5
        = Fault AssertionFailed.
Proof.
  split; [exact rooted_reachable|].
  split; [reflexivity|]. split; [reflexivity|]. split; [reflexivity|].
  intros MAX_GRAPH_DEPTH.
  assert (Hwalk : walk MAX_GRAPH_DEPTH (the rooted) 5 1
                  = Fault AssertionFailed).
  { eapply walk_to_frame_0; [done|reflexivity|reflexivity|reflexivity]. }
  split; [exact Hwalk|]. split; reflexivity.
Qed.

(** *** The walk *)

(** In [one_link] the frame "a" is frame 1; the walk from "a" to "a" leaves
    both lists empty and answers NO_ERROR.  In [cycle] the frames "a" and
    "b" exist and the walk between them answers LOOKUP_ERROR. *)
Lemma lookupLists_same_frame_counterexample :
  frameIDs_ (the one_link) !! "a" = Some 1%nat
  ∧ (∃ r, lookupLists depth (the one_link) 1 5 1 = Ret r
          ∧ inverseTransforms (lists r) = []
          ∧ forwardTransforms (lists r) = []
          ∧ retval r = NO_ERROR
          ∧ retval r ≠ CONNECTIVITY_ERROR)
  ∧ frameIDs_ (the cycle) !! "a" = Some 1%nat
  ∧ frameIDs_ (the cycle) !! "b" = Some 2%nat
  ∧ (∃ r, lookupLists depth (the cycle) 1 5 2 = Ret r
          ∧ retval r = LOOKUP_ERROR).
Proof.
  split; [reflexivity|]. split.
  { eexists. split; [reflexivity|]. repeat split; done. }
  split; [reflexivity|]. split; [reflexivity|].
  eexists. split; [vm_compute; reflexivity|]. reflexivity.
Qed.

Lemma resolves_intro (s : Buffer) (tr : TransformStorage) (c p : nat) :
  frameIDs_ s !! ts_child tr = Some c →
  frameIDs_ s !! ts_frame_id tr = Some p → resolves s tr.
Proof. intros Hc Hp. split; eauto. Qed.

(** In [chain3] the walk from "b" as source and "a" as target finds the
    steps of "b" and "c" on one side and those of "a", "b" and "c" on the
    other; both end at "d".  The shared steps of "c" and "b" are popped and
    the step of "a" is left. *)
Lemma lookupLists_connectivity_witness :
  ∃ r, lookupLists depth (the chain3) 1 5 2 = Ret r
    ∧ retval r = NO_ERROR
    ∧ lists r = mkTransformLists [] (take 1 chain3_steps)
    ∧ (retval r = CONNECTIVITY_ERROR ↔ 4%nat ≠ 4%nat ∨ 3%nat = 0%nat ∨ 3%nat = 0%nat)
    ∧ popped (the chain3) (drop 1 chain3_steps) chain3_steps
        (inverseTransforms (lists r)) (forwardTransforms (lists r)).
Proof.
  destruct (lookupLists_connectivity depth (the chain3) 5 1 2
              (drop 1 chain3_steps) chain3_steps 4 4)
    as (r & Hr & Hcodes & _ & _ & _ & Hboth & Hpop & _).
  - discriminate.
  - vm_compute. reflexivity.
  - vm_compute. reflexivity.
  - eexists. reflexivity.
  - eexists. reflexivity.
  - repeat constructor;
      (eapply resolves_intro; [vm_compute; reflexivity|vm_compute; reflexivity]).
  - exists r. split; [exact Hr|].
    assert (E : Ret r = Ret (mkLookupResult NO_ERROR
                  (mkTransformLists [] (take 1 chain3_steps)) None)
                :> outcome lookup_result).
    { rewrite <- Hr. vm_compute. reflexivity. }
    injection E as ->. split; [reflexivity|]. split; [reflexivity|].
    split.
    + apply (Hboth (TransformStorage_of (message "d" "c" 5 4) 4)
               (TransformStorage_of (message "d" "c" 5 4) 4) 3%nat 3%nat);
        reflexivity.
    + apply Hpop. reflexivity.
Defined.

Lemma chain3_linked : linked (the chain3) 5 1 chain3_steps 4.
Proof.
  unfold chain3_steps.
  eapply linked_cons; [done|reflexivity|reflexivity|].
  eapply linked_cons; [done|reflexivity|reflexivity|].
  eapply linked_cons; [done|reflexivity|reflexivity|].
  apply linked_nil.
Qed.

Lemma chain3_no_data : no_data (the chain3) 5 4.
Proof. split; [done|]. eexists. split; reflexivity. Qed.

(** [chain3] is three steps deep.  With a depth bound of 2 the side from "a"
    pushes the three steps and terminates at "d"; with a bound of 1 the same
    three steps are a loop. *)
Lemma walk_depth_bound_witness :
  length chain3_steps = 3%nat
  ∧ walk 2 (the chain3) 5 1 = Ret (Terminated chain3_steps 4)
  ∧ walk 1 (the chain3) 5 1 = Ret (TooDeep chain3_steps).
Proof.
  split; [reflexivity|]. split.
  - apply (proj1 (walk_depth_bound 2 (the chain3) 5 1 chain3_steps 4
                    chain3_linked)).
    + exact chain3_no_data.
    + simpl. lia.
  - apply (proj2 (walk_depth_bound 1 (the chain3) 5 1 chain3_steps 4
                    chain3_linked)).
    reflexivity.
Defined.

(** *** Latest common time *)

(** In [fork] the sample of "l" is of instant 5 and that of "r" of instant
    7: the latest common time is 5. *)
Lemma getLatestCommonTime_spec_witness :
  ∃ t, getLatestCommonTime depth (the fork) "l" "r"
       = Ret (NO_ERROR, t, None)
    ∧ earliest_stamp [ListCache.tag EXACT fork_l; ListCache.tag EXACT fork_r] t
    ∧ t = 5.
Proof.
  destruct (proj1 (getLatestCommonTime_spec depth (the fork) "l" "r")
              (mkLookupResult NO_ERROR
                 (mkTransformLists [ListCache.tag EXACT fork_l]
                    [ListCache.tag EXACT fork_r])
                 None))
    as (t & Ht & _ & Hmin & _).
  - vm_compute. reflexivity.
  - simpl in Ht, Hmin. exists t. split; [exact Ht|]. split.
    + apply Hmin; [reflexivity|discriminate|].
      intros tr Hin. simpl in Hin.
      apply elem_of_cons in Hin as [->|Hin]; [vm_compute; discriminate|].
      apply elem_of_cons in Hin as [->|Hin]; [vm_compute; discriminate|].
      inversion Hin.
    + assert (E : Ret (NO_ERROR, t, None) = Ret (NO_ERROR, 5, None)
                  :> outcome (TF2Error * Z * option diagnostic)).
      { rewrite <- Ht. vm_compute. reflexivity. }
      now injection E.
Defined.

(** *** The extrapolation test *)

(** [one_link] holds a single sample of "a", at instant 5, and allows no
    extrapolation: the lookup at instant 6 is refused.  In [fork] the latest
    common time is 5, where the single sample of "r", of instant 7, is out
    of reach: the lookup at the zero instant finds no common time. *)
Lemma test_extrapolation_raises_witness :
  within_a_duration 6 (ts_stamp one_link_step)
  ∧ distance_beyond 0 6 one_link_step
  ∧ is_Some (test_extrapolation_step (the one_link) 6 one_link_step)
  ∧ (∃ why, lookupTransform (bt:=Line.t) depth (the one_link) "p" "a" 6
            = Throw (tf2_ExtrapolationException (Some why)))
  ∧ distance_beyond 0 5 fork_r
  ∧ is_Some (test_extrapolation_step (the fork) 5 fork_r)
  ∧ lookupTransform (bt:=Line.t) depth (the fork) "l" "r" Time_unset
    = Throw (tf2_ConnectivityException (Some (diag_no_common_time "r" "l"))).
Proof.
  assert (Hfits : within_a_duration 6 (ts_stamp one_link_step))
    by reflexivity.
  assert (Hfar : distance_beyond 0 6 one_link_step) by reflexivity.
  assert (Hfails :
            is_Some (test_extrapolation_step (the one_link) 6 one_link_step)).
  { exact (proj2 (proj2 (proj1 (test_extrapolation_raises (bt:=Line.t) depth
                                  (the one_link))
                           6 one_link_step)
                    Hfits)
             Hfar). }
  assert (Hfits' : within_a_duration 5 (ts_stamp fork_r)) by reflexivity.
  assert (Hfar' : distance_beyond 0 5 fork_r) by reflexivity.
  assert (Hfails' : is_Some (test_extrapolation_step (the fork) 5 fork_r)).
  { exact (proj2 (proj2 (proj1 (test_extrapolation_raises (bt:=Line.t) depth
                                  (the fork))
                           5 fork_r)
                    Hfits')
             Hfar'). }
  split; [exact Hfits|]. split; [exact Hfar|]. split; [exact Hfails|].
  split; [|split; [exact Hfar'|split; [exact Hfails'|]]].
  - apply (proj2 (proj2 (test_extrapolation_raises (bt:=Line.t) depth
                           (the one_link)))
             "p" "a" 6 6 (mkTransformLists [one_link_step] []) NO_ERROR None
             one_link_step).
    + discriminate.
    + vm_compute. reflexivity.
    + discriminate.
    + discriminate.
    + left.
    + exact Hfails.
  - apply (proj2 (proj2 (test_extrapolation_raises (bt:=Line.t) depth
                           (the fork)))
             "l" "r" Time_unset 5 (mkTransformLists [fork_r] [fork_l])
             NO_ERROR None fork_r).
    + discriminate.
    + vm_compute. reflexivity.
    + discriminate.
    + discriminate.
    + left.
    + exact Hfails'.
Defined.

(** Beyond 2^31 s the durations wrap around.  A sample at 3000000000 s that
    its cache hands out as its oldest is 2999999999 s after the instant 1 s,
    far over the limit of 0, and passes the test: the difference is the
    duration of -1294967297 s.  In [far], whose limit is 10 s, the single
    sample of "a" is 4294967294 s after the instant 1 s, which as a duration
    is -2 s, and 2 s the other way round: the lookup at 1 s returns. *)
Lemma test_extrapolation_wrap_counterexample :
  (distance_beyond (max_extrapolation_distance_ (the fresh)) 1000000000
     far_oldest
   ∧ ts_stamp far_oldest ≤ TIME_MAX
   ∧ Time_minus (ts_stamp far_oldest) 1000000000 = -1294967297000000000
   ∧ test_extrapolation_step (the fresh) 1000000000 far_oldest = None
   ∧ test_extrapolation (the fresh) 1000000000
       (mkTransformLists [far_oldest] []) = None)
  ∧ (max_extrapolation_distance_ (the far) = 10000000000
     ∧ Z.abs (1000000000 - 4294967295000000000) > 10000000000
     ∧ lookupTransform depth (the far) "p" "a" 1000000000
       = Ret (mkTransformStamped (mkHeader 1000000000 "p") "a"
                (transformTF2ToMsg (Line.mk false 3)))).
Proof.
  split.
  - split; [reflexivity|]. split; [discriminate|].
    split; [reflexivity|]. split; vm_compute; reflexivity.
  - split; [reflexivity|]. split; [reflexivity|]. vm_compute. reflexivity.
Qed.

(** *** Composition *)

Lemma Line_group_laws : group_laws (bt:=Line.t).
Proof.
  unfold group_laws. simpl.
  split; [|split; [|split; [|split]]].
  - intros [[] a] [[] b] [[] c]; unfold Line.mul; simpl; f_equal; lia.
  - intros [[] a]; unfold Line.mul; simpl; f_equal.
  - intros [[] a]; unfold Line.mul; simpl; f_equal; lia.
  - intros [[] a]; unfold Line.mul, Line.inverse, Line.identity; simpl;
      f_equal; lia.
  - intros [[] a]; unfold Line.mul, Line.inverse, Line.identity; simpl;
      f_equal; lia.
Qed.

(** Two steps on each side, one of them mirrored: the steps do not commute,
    and the composition is [x ↦ x + 7]. *)
Lemma computeTransformFromList_composition_witness :
  computeTransformFromList
    (mkTransformLists [step false 3; step true 5] [step true 2; step false 7])
  = Ret (Line.mk false 7)
  ∧ group_laws (bt:=Line.t)
  ∧ Line.mk false 7
    = bt_mul
        (bt_inverse
           (product_parent_first [step true 2; step false 7]))
        (product_parent_first [step false 3; step true 5])
  ∧ bt_mul (step_transform (step false 3)) (step_transform (step true 5))
    ≠ bt_mul (step_transform (step true 5)) (step_transform (step false 3)).
Proof.
  destruct (computeTransformFromList_composition (bt:=Line.t)
              [step false 3; step true 5] [step true 2; step false 7])
    as [Hrun Hprod].
  split; [exact Hrun|]. split; [exact Line_group_laws|].
  split; [exact (Hprod Line_group_laws)|]. discriminate.
Defined.

(** *** The five-argument lookup *)

(** In [one_link] the lookup of "a" at the zero instant, of "p" at instant
    5, through the fixed frame "p" returns with the stamp 5, the latest
    common time of "a" and "p", and not with the zero instant it was asked
    for. *)
Lemma lookupTransform_fixed_stamp_counterexample :
  ∃ r, lookupTransform_fixed (bt:=Line.t) depth (the one_link)
         "a" Time_unset "p" 5 "p" = Ret r
       ∧ stamp (header r) = 5
       ∧ stamp (header r) ≠ Time_unset.
Proof. eexists. split; [vm_compute; reflexivity|]. split; done. Qed.

Lemma lookupTransform_fixed_spec_witness :
  let temp1 := mkTransformStamped (mkHeader 5 "p") "p" setIdentity in
  let temp2 :=
    mkTransformStamped (mkHeader 5 "a") "p" (Line.to_msg (Line.mk false (-3)))
  in
  lookupTransform_fixed (bt:=Line.t) depth (the one_link)
    "a" Time_unset "p" 5 "p"
  = Ret (mkTransformStamped (mkHeader 5 "a") "p"
           (transformTF2ToMsg
              (bt_mul (transformMsgToTF2 (transform temp2))
                      (transformMsgToTF2 (transform temp1)))))
  ∧ getLatestCommonTime depth (the one_link) "a" "p"
    = Ret (NO_ERROR, 5, None).
Proof.
  intros temp1 temp2.
  destruct (lookupTransform_fixed_spec (bt:=Line.t) depth (the one_link)
              "a" Time_unset "p" 5 "p" temp1 temp2)
    as (Hrun & _ & Hlatest).
  - reflexivity.
  - vm_compute. reflexivity.
  - split; [exact Hrun|].
    destruct Hlatest as [what Hw]; [discriminate|reflexivity|].
    reflexivity.
Defined.

End Witnesses.

(** ** More on the registry *)

Section RegistryRoundTrip.

Context {TC OT : Type} `{!TimeCacheOps TC, !LegacyTf OT}.

Implicit Types s : BufferCore TC OT.

(** X1.  In a registry in good order the two lookups are inverse to each
    other: a name has the number [id] exactly when [id] has that name; two
    names never share a number; and the reverse lookup throws its
    [tf2::LookupException] exactly for the numbers from the size of the
    vector of frames on, as the forward lookup throws [tf::LookupException]
    exactly for the names that are not registered. *)
Theorem registry_round_trip s :
  registry_ok s →
  (∀ (name : string) (id : nat),
     lookupFrameNumber s name = Ret id ↔ lookupFrameString s id = Ret name)
  ∧ (∀ (n1 n2 : string) (id : nat),
       lookupFrameNumber s n1 = Ret id → lookupFrameNumber s n2 = Ret id →
       n1 = n2)
  ∧ (∀ id : nat,
       lookupFrameString s id
       = Throw (tf2_LookupException (Some (diag_reverse id)))
       ↔ (length (frames_ s) ≤ id)%nat)
  ∧ (∀ name : string,
       lookupFrameNumber s name
       = Throw (tf_LookupException (diag_no_frame name))
       ↔ frameIDs_ s !! name = None).
Proof.
  intros (H0 & Hlen & Hbij & Hnull).
  assert (Hfwd : ∀ name id,
            lookupFrameNumber s name = Ret id ↔ frameIDs_ s !! name = Some id).
  { intros name id. unfold lookupFrameNumber.
    destruct (frameIDs_ s !! name); split; congruence. }
  assert (Hrev : ∀ name id,
            lookupFrameString s id = Ret name
            ↔ frameIDs_reverse s !! id = Some name).
  { intros name id. unfold lookupFrameString.
    destruct (frameIDs_reverse s !! id); split; congruence. }
  split; [|split; [|split]].
  - intros name id. rewrite Hfwd, Hrev. apply Hbij.
  - intros n1 n2 id H1 H2. apply Hfwd, Hbij in H1. apply Hfwd, Hbij in H2.
    congruence.
  - intros id. unfold lookupFrameString. rewrite <- Hlen.
    destruct (frameIDs_reverse s !! id) as [name|] eqn:E.
    + split; [discriminate|]. apply lookup_lt_Some in E. lia.
    + split; [|done]. intros _. now apply lookup_ge_None.
  - intros name. unfold lookupFrameNumber.
    destruct (frameIDs_ s !! name); split; congruence.
Qed.

(** X2.  Numbering a name in a registry in good order: the name has the
    number returned from then on, in both directions; numbering it again
    returns the same number and changes nothing; the names that were
    registered keep their numbers; and a name that was unknown receives the
    size of the vector of frames as its number, with a new cache behind it. *)
Theorem lookupOrInsertFrameNumber_round_trip s (name : string) (id : nat) s' :
  registry_ok s →
  lookupOrInsertFrameNumber s name = (id, s') →
  lookupFrameNumber s' name = Ret id
  ∧ lookupFrameString s' id = Ret name
  ∧ lookupOrInsertFrameNumber s' name = (id, s')
  ∧ (∀ (other : string) (n : nat),
       lookupFrameNumber s other = Ret n → lookupFrameNumber s' other = Ret n)
  ∧ (lookupFrameNumber s name = Ret id → s' = s)
  ∧ (frameIDs_ s !! name = None →
     id = length (frames_ s)
     ∧ length (frames_ s') = S (length (frames_ s))
     ∧ getFrame s' id
       = Ret (Some (TimeCache_new (cache_time s)
                      (max_extrapolation_distance_ s)))).
Proof.
  intros Hok Hrun.
  destruct (lookupOrInsertFrameNumber_ok _ _ _ _ Hok Hrun)
    as (Hok' & H1 & H2 & H3 & H4 & H5 & _).
  assert (Hpos : (0 < length (frames_ s))%nat).
  { destruct Hok as (H0 & Hlen & Hbij & _). apply Hbij in H0.
    apply lookup_lt_Some in H0. lia. }
  split; [now apply lookupFrameNumber_Some|].
  split.
  { destruct Hok' as (_ & _ & Hbij & _). apply Hbij in H1.
    unfold lookupFrameString. now rewrite H1. }
  split; [unfold lookupOrInsertFrameNumber; now rewrite H1|].
  split.
  { intros other n. unfold lookupFrameNumber.
    destruct (frameIDs_ s !! other) as [k|] eqn:E; [|discriminate].
    intros [= <-]. now rewrite (lookup_weaken _ _ _ _ E H2). }
  split.
  { unfold lookupFrameNumber, lookupOrInsertFrameNumber in *.
    destruct (frameIDs_ s !! name); [|discriminate]. congruence. }
  intros Hnew. specialize (H5 Hnew). subst id. rewrite Hnew in H4.
  split; [done|]. split.
  { rewrite H4, length_app. simpl. lia. }
  unfold getFrame. destruct (Nat.eqb_spec (length (frames_ s)) 0); [lia|].
  rewrite H4. now rewrite list_lookup_middle.
Qed.

(** X3.  In a registry in good order every registered name but "NO_PARENT"
    has a cache: [getFrame] is null for the number of "NO_PARENT", which is
    0, and a cache for the number of any other name. *)
Theorem getFrame_registered s (name : string) (id : nat) :
  registry_ok s →
  lookupFrameNumber s name = Ret id →
  (name = "NO_PARENT" ∧ id = 0%nat ∧ getFrame s id = Ret None)
  ∨ (name ≠ "NO_PARENT" ∧ id ≠ 0%nat
     ∧ ∃ cache, getFrame s id = Ret (Some cache)).
Proof.
  intros Hok Hn. unfold lookupFrameNumber in Hn.
  destruct (frameIDs_ s !! name) as [k|] eqn:E; [|discriminate].
  injection Hn as ->.
  pose proof (registry_ok_in_range _ _ _ Hok E) as Hrange.
  destruct Hok as (H0 & Hlen & Hbij & Hnull).
  destruct (decide (name = "NO_PARENT")) as [->|Hne].
  - left. assert (id = 0%nat) as -> by congruence. done.
  - right. assert (Hid : id ≠ 0%nat).
    { intros ->. apply Hbij in H0, E. congruence. }
    split; [done|]. split; [done|].
    destruct (registry_ok_cache s id) as [cache Hc]; try done.
    exists cache. now apply getFrame_cache.
Qed.

End RegistryRoundTrip.

(** ** More on [setTransform] *)

Section SetTransformEffects.

Context {TC OT : Type} `{!TimeCacheOps TC, !LegacyTf OT}.

Implicit Types s : BufferCore TC OT.

(** X6.  Numbers are never recycled: whatever a call of [setTransform]
    returns on a registry in good order, every name that had a number keeps
    it, in both directions, and the vector of frames does not shrink. *)
Theorem setTransform_ids_stable s (m : TransformStamped) (authority : string)
    (b : bool) s' :
  registry_ok s →
  setTransform s m authority = Ret (b, s') →
  (∀ (name : string) (id : nat),
     lookupFrameNumber s name = Ret id →
     lookupFrameNumber s' name = Ret id ∧ lookupFrameString s' id = Ret name)
  ∧ (length (frames_ s) ≤ length (frames_ s'))%nat.
Proof.
  intros Hok Hrun.
  destruct (setTransform_monotone _ _ _ _ _ Hok Hrun) as [Hsub Hlen].
  pose proof (setTransform_registry_ok _ _ _ _ _ Hok Hrun)
    as (_ & _ & Hbij & _).
  split; [|done]. intros name id. unfold lookupFrameNumber, lookupFrameString.
  destruct (frameIDs_ s !! name) as [k|] eqn:E; [|discriminate].
  intros [= <-]. pose proof (lookup_weaken _ _ _ _ E Hsub) as E'.
  rewrite E'. apply Hbij in E'. now rewrite E'.
Qed.

(** X7.  A call that passes the validation touches one cache only, that of
    the child: every other frame that existed has the cache it had.  When
    the call returns true the authority of the child is the one given, and
    the authorities of the other frames are as before. *)
Theorem setTransform_touches_one_cache s (m : TransformStamped)
    (authority : string) (b : bool) s' :
  registry_ok s →
  ¬ rejected m →
  setTransform s m authority = Ret (b, s') →
  ∃ c, lookupFrameNumber s' (child_frame_id m) = Ret c
    ∧ (∀ id, id ≠ c → (id < length (frames_ s))%nat →
             frames_ s' !! id = frames_ s !! id)
    ∧ (b = true →
       frame_authority_ s' !! c = Some authority
       ∧ ∀ other, other ≠ c →
                  frame_authority_ s' !! other = frame_authority_ s !! other).
Proof.
  intros Hok Hval Hrun.
  destruct (setTransform_accepted _ _ _ _ _ Hok Hval Hrun)
    as (c & p & c0 & c' & H1 & _ & _ & _ & _ & _ & _ & _ & Hauth & _).
  exists c. split; [now apply lookupFrameNumber_Some|]. split.
  - intros id Hid Hrange. unfold setTransform in Hrun.
    apply error_exists_false in Hval. rewrite Hval in Hrun.
    set (s0 := set_old_tf s _) in Hrun.
    destruct (lookupOrInsertFrameNumber s0 (child_frame_id m))
      as [c1 s1] eqn:Hc.
    destruct (lookupOrInsertFrameNumber s1 (frame_id (header m)))
      as [p1 s2] eqn:Hp.
    apply lookupOrInsertFrameNumber_ok in Hc
      as (Hok1 & Hc1 & _ & Hc3 & Hc4 & _);
      [|now apply registry_ok_set_old_tf].
    apply lookupOrInsertFrameNumber_ok in Hp
      as (Hok2 & Hp1 & _ & Hp3 & Hp4 & _); [|done].
    change (frames_ s0) with (frames_ s) in *.
    assert (Hs2 : frames_ s2 !! id = frames_ s !! id).
    { rewrite Hp4, Hc4.
      rewrite lookup_app_l by (rewrite length_app; lia).
      now rewrite lookup_app_l by lia. }
    destruct (getFrame s2 c1) as [[cache|]| |]; simpl in Hrun;
      try discriminate.
    destruct (insertData cache _) as [inserted cache'] eqn:Hins.
    assert (Hcc : frameIDs_ s' !! child_frame_id m = Some c1).
    { assert (Hchild : frameIDs_ s2 !! child_frame_id m = Some c1).
      { destruct (decide (child_frame_id m = frame_id (header m)))
          as [E|E].
        - apply error_exists_false in Hval. exfalso. apply Hval. now left.
        - now rewrite Hp3. }
      destruct inserted; injection Hrun as <- <-; exact Hchild. }
    assert (c1 = c) as -> by congruence.
    destruct inserted; injection Hrun as <- <-; simpl;
      now rewrite list_lookup_insert_ne.
  - intros ->. rewrite Hauth. split; [apply lookup_insert_eq|].
    intros other Hne. now rewrite lookup_insert_ne.
Qed.

(** X8.  The legacy transformer is handed every message once, whether the
    message passes the validation or not, and nothing else changes it; the
    history length and the extrapolation limit of the buffer stay as they
    are. *)
Theorem setTransform_feeds_legacy s (m : TransformStamped)
    (authority : string) (b : bool) s' :
  setTransform s m authority = Ret (b, s') →
  old_tf_ s' = (old_setTransform (old_tf_ s) m authority).2
  ∧ cache_time s' = cache_time s
  ∧ max_extrapolation_distance_ s' = max_extrapolation_distance_ s.
Proof.
  unfold setTransform. destruct (error_exists m).
  { intros [= <- <-]. done. }
  set (s0 := set_old_tf s _).
  assert (Hlo : ∀ (s1 : BufferCore TC OT) name,
            old_tf_ (lookupOrInsertFrameNumber s1 name).2 = old_tf_ s1
            ∧ cache_time (lookupOrInsertFrameNumber s1 name).2 = cache_time s1
            ∧ max_extrapolation_distance_ (lookupOrInsertFrameNumber s1 name).2
              = max_extrapolation_distance_ s1).
  { intros s1 name. unfold lookupOrInsertFrameNumber.
    destruct (frameIDs_ s1 !! name); done. }
  destruct (lookupOrInsertFrameNumber s0 (child_frame_id m))
    as [c1 s1] eqn:Hc.
  destruct (lookupOrInsertFrameNumber s1 (frame_id (header m)))
    as [p1 s2] eqn:Hp.
  pose proof (Hlo s0 (child_frame_id m)) as (A1 & A2 & A3).
  pose proof (Hlo s1 (frame_id (header m))) as (B1 & B2 & B3).
  rewrite Hc in A1, A2, A3. rewrite Hp in B1, B2, B3. simpl in *.
  destruct (getFrame s2 c1) as [[cache|]| |]; simpl; try discriminate.
  destruct (insertData cache _) as [[] cache'];
    intros [= <- <-]; simpl; repeat split; congruence.
Qed.

End SetTransformEffects.

(** ** More on one side of the walk *)

Section WalkShape.

Context {TC OT : Type} `{!TimeCacheOps TC}.
Variable MAX_GRAPH_DEPTH : nat.

Implicit Types s : BufferCore TC OT.

Lemma walk_loop_given_up (fuel : nat) :
  ∀ s (time : Time) (f counter : nat) (acc st : list TransformStorage),
    walk_loop MAX_GRAPH_DEPTH fuel s time f counter acc = Ret (TooDeep st) →
    ∃ steps g, st = acc ++ steps ∧ linked s time f steps g.
Proof.
  induction fuel as [|fuel IH]; intros s time f counter acc st Hr.
  - discriminate.
  - simpl in Hr. unfold getFrame in Hr.
    destruct (Nat.eqb_spec f 0) as [|Hf]; [discriminate|].
    destruct (frames_ s !! f) as [[cache|]|] eqn:Hc; try discriminate.
    simpl in Hr. destruct (getData cache time) as [temp|] eqn:Hd;
      [|discriminate].
    destruct (MAX_GRAPH_DEPTH <? counter)%nat.
    + injection Hr as <-. exists [temp], (frame_id_num_ temp).
      split; [done|]. econstructor; eauto. constructor.
    + apply IH in Hr as (steps & g & -> & Hlink).
      exists (temp :: steps), g. rewrite <- app_assoc. split; [done|].
      econstructor; eauto.
Qed.

(** X9.  What one side of the walk returns is decided by the samples the
    caches link together at the time asked: the side terminates with the
    steps [steps] at the frame [g] exactly when the caches link [steps] from
    the start frame to [g], [g] has a cache without data for the time, and
    there are at most [MAX_GRAPH_DEPTH + 1] steps; it is given up with
    [steps] exactly when the caches link these [MAX_GRAPH_DEPTH + 2] steps
    from the start frame. *)
Theorem walk_returns_iff s (time : Time) (f : nat)
    (steps : list TransformStorage) :
  (∀ g, walk MAX_GRAPH_DEPTH s time f = Ret (Terminated steps g)
        ↔ linked s time f steps g ∧ no_data s time g
          ∧ (length steps ≤ S MAX_GRAPH_DEPTH)%nat)
  ∧ (walk MAX_GRAPH_DEPTH s time f = Ret (TooDeep steps)
     ↔ (∃ g, linked s time f steps g)
       ∧ length steps = S (S MAX_GRAPH_DEPTH)).
Proof.
  split.
  - intros g. split.
    + intros Hw. unfold walk in Hw.
      pose proof (walk_loop_length MAX_GRAPH_DEPTH _ s time f 0%nat [] _
                    eq_refl (Nat.le_0_l _) Hw) as Hlen. simpl in Hlen.
      apply walk_loop_terminated in Hw as (st & E & Hlink & Hnd).
      simpl in E. subst st. done.
    + intros (Hlink & Hnd & Hlen). unfold walk.
      now rewrite (walk_loop_linked _ _ _ _ _ _ Hlink Hnd) by (simpl; lia).
  - split.
    + intros Hw. unfold walk in Hw.
      pose proof (walk_loop_length MAX_GRAPH_DEPTH _ s time f 0%nat [] _
                    eq_refl (Nat.le_0_l _) Hw) as Hlen. simpl in Hlen.
      apply walk_loop_given_up in Hw as (st & g & E & Hlink).
      simpl in E. subst st. eauto.
    + intros ((g & Hlink) & Hlen). unfold walk.
      now rewrite (walk_loop_too_deep _ _ _ _ _ _ Hlink) by (simpl; lia).
Qed.

End WalkShape.

(** ** The walk in both directions *)

Section Symmetry.

Context {TC OT : Type} `{!TimeCacheOps TC}.
Variable MAX_GRAPH_DEPTH : nat.

Implicit Types s : BufferCore TC OT.

Lemma pop_loop_swap s :
  ∀ (ri rf : list TransformStorage) r,
    ri ≠ [] → rf ≠ [] →
    Forall (resolves s) ri → Forall (resolves s) rf →
    pop_loop s ri rf = Ret r →
    pop_loop s rf ri
    = Ret (mkLookupResult (retval r) (swap_lists (lists r)) (error_string r)).
Proof.
  induction ri as [|i ri IH]; intros rf r Hri Hrf Fi Ff Hr; [done|].
  destruct rf as [|f rf]; [done|].
  pose proof Fi as Fi0. pose proof Ff as Ff0.
  apply Forall_cons in Fi as [[[a Ha] _] Fi].
  apply Forall_cons in Ff as [[[b Hb] _] Ff].
  rewrite (pop_loop_cons s i f ri rf a b Ha Hb) in Hr.
  rewrite (pop_loop_cons s f i rf ri b a Hb Ha).
  rewrite (Nat.eqb_sym b a).
  destruct (a =? b)%nat.
  - destruct ri as [|i' ri].
    { injection Hr as <-. now destruct rf. }
    destruct rf as [|f' rf].
    { injection Hr as <-. done. }
    destruct (pop_loop_spec s (i' :: ri) (f' :: rf))
      as (pi & pf & ri' & rf' & _ & _ & _ & Hp & _); try done.
    rewrite Hp in Hr. simpl in Hr. injection Hr as <-.
    rewrite (IH (f' :: rf) _ ltac:(done) ltac:(done) Fi Ff Hp). done.
  - injection Hr as <-. done.
Qed.

Lemma lookupLists_swap s (time : Time) (a b : nat)
    (inv fwd : list TransformStorage) (li lf : nat) :
  a ≠ b →
  walk MAX_GRAPH_DEPTH s time b = Ret (Terminated inv li) →
  walk MAX_GRAPH_DEPTH s time a = Ret (Terminated fwd lf) →
  is_Some (frameIDs_reverse s !! a) →
  is_Some (frameIDs_reverse s !! b) →
  Forall (resolves s) (inv ++ fwd) →
  (∀ i, last inv = Some i → consistent s i) →
  (∀ f, last fwd = Some f → consistent s f) →
  ∃ r r',
    lookupLists MAX_GRAPH_DEPTH s a time b = Ret r
    ∧ lookupLists MAX_GRAPH_DEPTH s b time a = Ret r'
    ∧ retval r' = retval r
    ∧ lists r' = swap_lists (lists r).
Proof.
  intros Hne Hi Hf [an Han] [bn Hbn] Hres Ci Cf.
  rewrite (lookupLists_terminated MAX_GRAPH_DEPTH s time a b inv fwd li lf)
    by done.
  rewrite (lookupLists_terminated MAX_GRAPH_DEPTH s time b a fwd inv lf li)
    by done.
  apply Forall_app in Hres as [Fi Ff].
  unfold walk in Hi, Hf.
  apply walk_loop_terminated in Hi as (si & Ei & Hli & _).
  apply walk_loop_terminated in Hf as (sf & Ef & Hlf & _).
  simpl in Ei, Ef. subst si sf.
  unfold connect, lookupFrameString. rewrite Han, Hbn. simpl.
  destruct (reverse inv) as [|i ri] eqn:Ri;
    destruct (reverse fwd) as [|f rf] eqn:Rf.
  - eexists _, _. repeat split; reflexivity.
  - apply reverse_nil_inv in Ri. subst inv.
    apply reverse_cons_last in Rf as [Lf Nf].
    pose proof (linked_last _ _ _ _ _ Hlf _ Lf) as Elf.
    pose proof (Cf _ Lf) as Hcons. unfold consistent in Hcons.
    rewrite (lookupFrameNumber_Some _ _ _ Hcons). simpl.
    rewrite <- Elf. destruct (lf =? b)%nat; simpl;
      eexists _, _; repeat split; reflexivity.
  - apply reverse_nil_inv in Rf. subst fwd.
    apply reverse_cons_last in Ri as [Li Ni].
    pose proof (linked_last _ _ _ _ _ Hli _ Li) as Eli.
    pose proof (Ci _ Li) as Hcons. unfold consistent in Hcons.
    rewrite (lookupFrameNumber_Some _ _ _ Hcons). simpl.
    rewrite <- Eli. destruct (li =? a)%nat; simpl;
      eexists _, _; repeat split; reflexivity.
  - pose proof Ri as Ri'. pose proof Rf as Rf'.
    apply reverse_cons_last in Ri as [Li Ni].
    apply reverse_cons_last in Rf as [Lf Nf].
    destruct (pop_loop_popped s inv fwd Ni Nf Fi Ff)
      as (inv' & fwd' & Hp & _).
    rewrite Ri', Rf' in Hp.
    assert (Fri : Forall (resolves s) (i :: ri)).
    { rewrite <- Ri'. now apply Forall_reverse. }
    assert (Frf : Forall (resolves s) (f :: rf)).
    { rewrite <- Rf'. now apply Forall_reverse. }
    pose proof (pop_loop_swap s (i :: ri) (f :: rf) _
                  ltac:(done) ltac:(done) Fri Frf Hp) as Hq.
    rewrite Hp, Hq. clear Hp Hq.
    apply Forall_cons in Fri as [[[x Hx] _] _].
    apply Forall_cons in Frf as [[[y Hy] _] _].
    rewrite (Nat.eqb_sym li lf).
    destruct (lf =? li)%nat; simpl.
    2:{ eexists _, _; repeat split; reflexivity. }
    rewrite (lookupFrameNumber_Some _ _ _ Hx),
      (lookupFrameNumber_Some _ _ _ Hy). simpl.
    destruct (x =? 0)%nat, (y =? 0)%nat; simpl;
      eexists _, _; repeat split; reflexivity.
Qed.

(** X10.  The walk is symmetric.  For two different frames whose sides both
    terminate, with the names of the steps registered and the parent name of
    the last step of each side matching its parent number, the walk from [b]
    to [a] returns the code of the walk from [a] to [b] and the same two
    lists, exchanged. *)
Theorem lookupLists_symmetric s (time : Time) (a b : nat)
    (inv fwd : list TransformStorage) (li lf : nat) :
  a ≠ b →
  walk MAX_GRAPH_DEPTH s time b = Ret (Terminated inv li) →
  walk MAX_GRAPH_DEPTH s time a = Ret (Terminated fwd lf) →
  is_Some (frameIDs_reverse s !! a) →
  is_Some (frameIDs_reverse s !! b) →
  Forall (resolves s) (inv ++ fwd) →
  (∀ i, last inv = Some i → consistent s i) →
  (∀ f, last fwd = Some f → consistent s f) →
  ∃ r r',
    lookupLists MAX_GRAPH_DEPTH s a time b = Ret r
    ∧ lookupLists MAX_GRAPH_DEPTH s b time a = Ret r'
    ∧ retval r' = retval r
    ∧ lists r' = swap_lists (lists r).
Proof. apply lookupLists_swap. Qed.

Lemma earliest_exchange (t0 : Time) (l1 l2 : list TransformStorage) :
  earliest (earliest t0 l1) l2 = earliest (earliest t0 l2) l1.
Proof.
  rewrite !earliest_app.
  destruct (earliest_spec (l1 ++ l2) t0) as (A1 & A2 & A3).
  destruct (earliest_spec (l2 ++ l1) t0) as (B1 & B2 & B3).
  assert (Hle : earliest t0 (l1 ++ l2) ≤ earliest t0 (l2 ++ l1)).
  { destruct B3 as [->|(tr & Hin & <-)]; [done|]. apply A2.
    rewrite elem_of_app in *. tauto. }
  assert (Hge : earliest t0 (l2 ++ l1) ≤ earliest t0 (l1 ++ l2)).
  { destruct A3 as [->|(tr & Hin & <-)]; [done|]. apply B2.
    rewrite elem_of_app in *. tauto. }
  lia.
Qed.

#[local] Arguments earliest : simpl never.

(** X20.  The latest common time is symmetric.  For two different
    registered names whose sides at the zero instant both terminate, with the
    names of the steps registered and the parent name of the last step of
    each side matching its parent number, [getLatestCommonTime] returns the
    same code and the same time in both orders of the names. *)
Theorem getLatestCommonTime_symmetric s (a b : string) (ia ib : nat)
    (inv fwd : list TransformStorage) (li lf : nat) :
  frameIDs_ s !! a = Some ia → frameIDs_ s !! b = Some ib →
  ia ≠ ib →
  walk MAX_GRAPH_DEPTH s Time_unset ib = Ret (Terminated inv li) →
  walk MAX_GRAPH_DEPTH s Time_unset ia = Ret (Terminated fwd lf) →
  is_Some (frameIDs_reverse s !! ia) →
  is_Some (frameIDs_reverse s !! ib) →
  Forall (resolves s) (inv ++ fwd) →
  (∀ i, last inv = Some i → consistent s i) →
  (∀ f, last fwd = Some f → consistent s f) →
  ∃ code t what what',
    getLatestCommonTime MAX_GRAPH_DEPTH s a b = Ret (code, t, what)
    ∧ getLatestCommonTime MAX_GRAPH_DEPTH s b a = Ret (code, t, what').
Proof.
  intros Ha Hb Hne Hwi Hwf Hra Hrb Hres Ci Cf.
  destruct (lookupLists_swap s Time_unset ia ib inv fwd li lf Hne Hwi Hwf
              Hra Hrb Hres Ci Cf) as (r & r' & Hr & Hr' & Hcode & Hlists).
  unfold getLatestCommonTime.
  rewrite (lookupFrameNumber_Some _ _ _ Ha),
    (lookupFrameNumber_Some _ _ _ Hb). simpl.
  rewrite Hr, Hr', Hcode, Hlists. simpl.
  destruct (decide (retval r = NO_ERROR)).
  - destruct (inverseTransforms (lists r)) as [|i l1] eqn:E1;
      destruct (forwardTransforms (lists r)) as [|f l2] eqn:E2.
    + eexists _, _, _, _. split; reflexivity.
    + eexists _, _, _, _. split; [reflexivity|].
      now rewrite (earliest_exchange TIME_MAX [] (f :: l2)).
    + eexists _, _, _, _. split; [reflexivity|].
      now rewrite (earliest_exchange TIME_MAX (i :: l1) []).
    + eexists _, _, _, _. split; [reflexivity|].
      now rewrite (earliest_exchange TIME_MAX (i :: l1) (f :: l2)).
  - eexists _, _, _, _. split; reflexivity.
Qed.

End Symmetry.

Section CompositionInverse.

Context {bt : Type} `{!BtTransformOps bt}.

Lemma bt_inverse_involutive (laws : group_laws) (a : bt) :
  bt_inverse (bt_inverse a) = a.
Proof.
  symmetry. apply (bt_inverse_unique laws).
  destruct laws as (_ & _ & _ & invl & _). apply invl.
Qed.

Lemma compose_procedure_swap (laws : group_laws)
    (inv fwd : list TransformStorage) :
  compose_procedure fwd inv = bt_inverse (compose_procedure inv fwd).
Proof.
  unfold compose_procedure.
  rewrite !(foldl_inverse_product laws), !(foldl_mul_product laws).
  pose proof laws as (_ & idl & _). rewrite !idl.
  rewrite (bt_inverse_mul laws), (bt_inverse_involutive laws). done.
Qed.

(** X11.  The composition of the exchanged lists is the inverse transform:
    with the laws of a group, [computeTransformFromList] on the lists of the
    walk from [b] to [a] returns the inverse of what it returns on the lists
    of the walk from [a] to [b]. *)
Theorem computeTransformFromList_swap (lists : TransformLists) :
  group_laws →
  ∃ T, computeTransformFromList lists = Ret T
       ∧ computeTransformFromList (swap_lists lists) = Ret (bt_inverse T).
Proof.
  intros laws. exists (compose_procedure (inverseTransforms lists)
                         (forwardTransforms lists)).
  split; [apply computeTransformFromList_procedure|].
  rewrite computeTransformFromList_procedure. f_equal. simpl.
  now apply compose_procedure_swap.
Qed.

End CompositionInverse.

(** ** More on the queries *)

Section QueryEdges.

Context {TC OT bt : Type} `{!TimeCacheOps TC, !BtTransformOps bt}.
Variable MAX_GRAPH_DEPTH : nat.

Implicit Types s : BufferCore TC OT.

(** [lookupTransform] for two registered names and a time that is not the
    zero instant, once the walk has returned. *)
Lemma lookupTransform_at s (tname sname : string) (t so : nat) (time : Time)
    (r : lookup_result) :
  time ≠ Time_unset → sname ≠ tname →
  frameIDs_ s !! tname = Some t → frameIDs_ s !! sname = Some so →
  lookupLists MAX_GRAPH_DEPTH s t time so = Ret r →
  lookupTransform MAX_GRAPH_DEPTH s tname sname time
  = if decide (retval r = LOOKUP_ERROR)
    then Throw (tf2_LookupException (error_string r))
    else if decide (retval r = CONNECTIVITY_ERROR)
    then Throw (tf2_ConnectivityException (error_string r))
    else
      match test_extrapolation s time (lists r) with
      | Some what => Throw (tf2_ExtrapolationException (Some what))
      | None =>
          output ← computeTransformFromList (lists r);
          Ret (mkTransformStamped (mkHeader time tname) sname
                 (transformTF2ToMsg output))
      end.
Proof.
  intros Ht Hne Htn Hsn Hr. unfold lookupTransform, lookup_walk.
  destruct (String.eqb_spec sname tname); [done|].
  destruct (Z.eqb_spec time Time_unset); [done|]. simpl.
  rewrite (lookupFrameNumber_Some _ _ _ Htn),
    (lookupFrameNumber_Some _ _ _ Hsn). simpl. rewrite Hr. simpl.
  destruct (error_string r); reflexivity.
Qed.

Lemma walk_no_data s (time : Time) (f : nat) :
  no_data s time f →
  walk MAX_GRAPH_DEPTH s time f = Ret (Terminated [] f).
Proof.
  intros Hnd. unfold walk.
  rewrite (walk_loop_linked MAX_GRAPH_DEPTH s time f [] f (linked_nil _ _ _)
             Hnd) by (simpl; lia).
  reflexivity.
Qed.

Lemma lookupLists_no_data s (time : Time) (a b : nat) (an bn : string) :
  a ≠ b → no_data s time a → no_data s time b →
  frameIDs_reverse s !! a = Some an → frameIDs_reverse s !! b = Some bn →
  lookupLists MAX_GRAPH_DEPTH s a time b
  = Ret (mkLookupResult CONNECTIVITY_ERROR (mkTransformLists [] [])
           (Some (diag_unconnected an bn))).
Proof.
  intros Hne Ha Hb Han Hbn.
  rewrite (lookupLists_terminated MAX_GRAPH_DEPTH s time a b [] [] b a Hne
             (walk_no_data _ _ _ Hb) (walk_no_data _ _ _ Ha)).
  unfold connect, lookupFrameString. now rewrite Han, Hbn.
Qed.

(** X12.  A lookup between two different names of which one is not
    registered throws [tf2::LookupException], at every time, the zero
    instant included. *)
Theorem lookupTransform_unregistered s (target source : string)
    (time : Time) :
  source ≠ target →
  frameIDs_ s !! target = None ∨ frameIDs_ s !! source = None →
  ∃ what, lookupTransform MAX_GRAPH_DEPTH s target source time
          = Throw (tf2_LookupException (Some what)).
Proof.
  intros Hne Hun. unfold lookupTransform, lookup_walk.
  destruct (String.eqb_spec source target); [done|].
  destruct (time =? Time_unset).
  - unfold getLatestCommonTime, lookupFrameNumber.
    destruct (frameIDs_ s !! source) as [so|] eqn:Es; simpl.
    + destruct (frameIDs_ s !! target) as [t|] eqn:Et; simpl.
      * destruct Hun; discriminate.
      * eauto.
    + eauto.
  - simpl. unfold lookupFrameNumber.
    destruct (frameIDs_ s !! target) as [t|] eqn:Et; simpl.
    + destruct (frameIDs_ s !! source) as [so|] eqn:Es; simpl.
      * destruct Hun; discriminate.
      * eauto.
    + eauto.
Qed.

Lemma lookupTransform_unconnected s (target source : string) (t so : nat)
    (time : Time) :
  registry_ok s →
  frameIDs_ s !! target = Some t → frameIDs_ s !! source = Some so →
  source ≠ target →
  no_data s time t → no_data s time so →
  ∃ what, lookupTransform MAX_GRAPH_DEPTH s target source time
          = Throw (tf2_ConnectivityException (Some what)).
Proof.
  intros Hok Ht Hs Hne Hdt Hds.
  assert (Hrt : frameIDs_reverse s !! t = Some target).
  { destruct Hok as (_ & _ & Hbij & _). now apply Hbij. }
  assert (Hrs : frameIDs_reverse s !! so = Some source).
  { destruct Hok as (_ & _ & Hbij & _). now apply Hbij. }
  assert (Hids : t ≠ so) by congruence.
  destruct (Z.eqb_spec time Time_unset) as [->|Htime].
  - unfold lookupTransform, lookup_walk.
    destruct (String.eqb_spec source target); [done|]. simpl.
    unfold getLatestCommonTime.
    rewrite (lookupFrameNumber_Some _ _ _ Ht),
      (lookupFrameNumber_Some _ _ _ Hs). simpl.
    rewrite (lookupLists_no_data s Time_unset so t source target) by done.
    simpl. eauto.
  - rewrite (lookupTransform_at s target source t so time _ Htime Hne Ht Hs
               (lookupLists_no_data s time t so target source Hids Hdt Hds
                  Hrt Hrs)).
    simpl. eauto.
Qed.

(** X13.  A lookup between two different registered frames whose caches
    both have nothing for the time asked (the zero instant included) throws
    [tf2::ConnectivityException]: with no step on either side the frames are
    taken to be in different trees. *)
Theorem lookupTransform_no_data s (target source : string) (t so : nat)
    (time : Time) :
  registry_ok s →
  frameIDs_ s !! target = Some t → frameIDs_ s !! source = Some so →
  source ≠ target →
  no_data s time t → no_data s time so →
  ∃ what, lookupTransform MAX_GRAPH_DEPTH s target source time
          = Throw (tf2_ConnectivityException (Some what)).
Proof. apply lookupTransform_unconnected. Qed.

(** X14.  "NO_PARENT" is never an end of a lookup.  At a time that is not
    the zero instant, a lookup from a registered frame to "NO_PARENT" throws
    [tf2::LookupException] because the source frame does not exist, and a
    lookup from "NO_PARENT" to a registered frame whose side terminates
    throws it because the target frame does not exist. *)
Theorem lookupTransform_NO_PARENT s (name : string) (id : nat)
    (time : Time) :
  registry_ok s →
  frameIDs_ s !! name = Some id → name ≠ "NO_PARENT" →
  time ≠ Time_unset →
  lookupTransform MAX_GRAPH_DEPTH s name "NO_PARENT" time
  = Throw (tf2_LookupException (Some (diag_no_source "NO_PARENT")))
  ∧ (∀ inv li,
       walk MAX_GRAPH_DEPTH s time id = Ret (Terminated inv li) →
       lookupTransform MAX_GRAPH_DEPTH s "NO_PARENT" name time
       = Throw (tf2_LookupException (Some (diag_no_target "NO_PARENT")))).
Proof.
  intros Hok Hid Hname Htime.
  pose proof Hok as (H0 & _ & Hbij & _).
  assert (Hr0 : frameIDs_reverse s !! 0%nat = Some "NO_PARENT").
  { now apply Hbij. }
  assert (Hid0 : id ≠ 0%nat).
  { intros ->. apply Hbij in Hid. congruence. }
  split.
  - assert (Hl : lookupLists MAX_GRAPH_DEPTH s id time 0
                 = Ret (mkLookupResult LOOKUP_ERROR (mkTransformLists [] [])
                          (Some (diag_no_source "NO_PARENT")))).
    { unfold lookupLists. destruct (Nat.eqb_spec id 0); [done|].
      simpl. unfold lookupFrameString. now rewrite Hr0. }
    rewrite (lookupTransform_at s name "NO_PARENT" id 0%nat time _ Htime
               ltac:(congruence) Hid H0 Hl).
    reflexivity.
  - intros inv li Hw.
    assert (Hl : lookupLists MAX_GRAPH_DEPTH s 0 time id
                 = Ret (mkLookupResult LOOKUP_ERROR (mkTransformLists inv [])
                          (Some (diag_no_target "NO_PARENT")))).
    { unfold lookupLists. destruct (Nat.eqb_spec 0 id); [done|].
      destruct (walk_getFrame MAX_GRAPH_DEPTH _ _ _ _ Hw) as [c ->].
      simpl. rewrite Hw. simpl. unfold lookupFrameString. now rewrite Hr0. }
    rewrite (lookupTransform_at s "NO_PARENT" name 0%nat id time _ Htime
               Hname H0 Hid Hl).
    reflexivity.
Qed.

(** X15.  The lookup across one link.  Let the cache of the child give, at a
    time that is not the zero instant, a sample within the extrapolation
    limit whose parent number and parent name are those of the parent, and
    let the parent have no data at that time.  Then the lookup from the child
    to the parent returns the transform of the sample (times the identity),
    the lookup from the parent to the child its inverse, both stamped with
    the time and named after their target and source. *)
Theorem lookupTransform_one_link s (parent child : string) (p c : nat)
    (time : Time) (cache : TC) (temp : TransformStorage) :
  registry_ok s →
  frameIDs_ s !! parent = Some p → frameIDs_ s !! child = Some c →
  time ≠ Time_unset →
  frames_ s !! c = Some (Some cache) →
  getData cache time = Some temp →
  frame_id_num_ temp = p → ts_frame_id temp = parent →
  p ≠ c →
  no_data s time p →
  ¬ beyond_limit (max_extrapolation_distance_ s) time temp →
  lookupTransform MAX_GRAPH_DEPTH s parent child time
  = Ret (mkTransformStamped (mkHeader time parent) child
           (transformTF2ToMsg
              (bt_mul bt_identity (transformMsgToBT (ts_transform temp)))))
  ∧ lookupTransform MAX_GRAPH_DEPTH s child parent time
    = Ret (mkTransformStamped (mkHeader time child) parent
             (transformTF2ToMsg
                (bt_mul (bt_inverse (transformMsgToBT (ts_transform temp)))
                        bt_identity))).
Proof.
  intros Hok Hp Hc Htime Hcache Hdata Hnum Hname Hpc Hnd Hlim.
  pose proof Hok as (H0 & _ & Hbij & _).
  assert (Hc0 : c ≠ 0%nat).
  { intros ->. pose proof Hok as (_ & _ & _ & Hnull).
    assert (Hl : (0 < length (frames_ s))%nat).
    { apply lookup_lt_Some in Hcache. lia. }
    destruct (Hnull 0%nat Hl) as [_ Hn]. rewrite Hn in Hcache; done. }
  assert (Hnames : parent ≠ child) by congruence.
  assert (Hrp : frameIDs_reverse s !! p = Some parent) by now apply Hbij.
  assert (Hrc : frameIDs_reverse s !! c = Some child) by now apply Hbij.
  assert (Hwc : walk MAX_GRAPH_DEPTH s time c = Ret (Terminated [temp] p)).
  { unfold walk.
    rewrite (walk_loop_linked MAX_GRAPH_DEPTH s time c [temp] p)
      by (simpl; try lia; try done;
          econstructor; eauto; rewrite Hnum; constructor).
    reflexivity. }
  assert (Hwp : walk MAX_GRAPH_DEPTH s time p = Ret (Terminated [] p)).
  { now apply walk_no_data. }
  assert (Hstep : test_extrapolation_step s time temp = None).
  { destruct (test_extrapolation_step s time temp) eqn:E; [|done].
    exfalso. apply Hlim. apply test_extrapolation_step_beyond.
    rewrite E. eauto. }
  split.
  - assert (Hl : lookupLists MAX_GRAPH_DEPTH s p time c
                 = Ret (mkLookupResult NO_ERROR (mkTransformLists [temp] [])
                          None)).
    { rewrite (lookupLists_terminated MAX_GRAPH_DEPTH s time p c
                 [temp] [] p p Hpc Hwc Hwp).
      unfold connect, lookupFrameString. rewrite Hrp, Hrc. simpl.
      rewrite Hname, (lookupFrameNumber_Some _ _ _ Hp). simpl.
      now rewrite Nat.eqb_refl. }
    rewrite (lookupTransform_at s parent child p c time _ Htime
               ltac:(congruence) Hp Hc Hl).
    simpl. unfold test_extrapolation. simpl. rewrite Hstep. reflexivity.
  - assert (Hl : lookupLists MAX_GRAPH_DEPTH s c time p
                 = Ret (mkLookupResult NO_ERROR (mkTransformLists [] [temp])
                          None)).
    { rewrite (lookupLists_terminated MAX_GRAPH_DEPTH s time c p
                 [] [temp] p p ltac:(congruence) Hwp Hwc).
      unfold connect, lookupFrameString. rewrite Hrp, Hrc. simpl.
      now rewrite Nat.eqb_refl. }
    rewrite (lookupTransform_at s child parent c p time _ Htime
               Hnames Hc Hp Hl).
    simpl. unfold test_extrapolation. simpl. rewrite Hstep. reflexivity.
Qed.

End QueryEdges.

(** ** Clearing and printing *)

Lemma mapM_outcome_Ret {A B} (f : A → outcome B) (g : A → B) (l : list A) :
  (∀ x, x ∈ l → f x = Ret (g x)) → mapM f l = Ret (g <$> l).
Proof.
  induction l as [|x l IH]; intros H; [reflexivity|].
  simpl. rewrite (H x) by left. simpl.
  rewrite IH by (intros y Hy; apply H; now right). reflexivity.
Qed.

Section Clear.

Context {TC OT : Type}.
Context `{!TimeCacheOps TC, !LegacyTf OT, !TimeCacheClear TC, !LegacyClear OT}.

Implicit Types s : BufferCore TC OT.

Lemma clear_registry s :
  registry_ok s →
  ∃ s', clear s = Ret s'
    ∧ registry_ok s'
    ∧ frameIDs_ s' = frameIDs_ s
    ∧ frameIDs_reverse s' = frameIDs_reverse s
    ∧ frame_authority_ s' = frame_authority_ s
    ∧ length (frames_ s') = length (frames_ s)
    ∧ (∀ id cache, frames_ s !! id = Some (Some cache) →
                   frames_ s' !! id = Some (Some (clearList cache)))
    ∧ old_tf_ s' = old_clear (old_tf_ s).
Proof.
  intros Hok. pose proof Hok as (H0 & Hlen & Hbij & Hnull).
  assert (Hpos : (0 < length (frames_ s))%nat).
  { apply Hbij in H0. apply lookup_lt_Some in H0. lia. }
  assert (Hhead : take 1 (frames_ s) = [None]).
  { destruct (frames_ s) as [|x l] eqn:E; [simpl in Hpos; lia|].
    destruct (Hnull 0%nat Hpos) as [_ Hn]. specialize (Hn eq_refl).
    simpl in Hn. injection Hn as ->. reflexivity. }
  assert (Hsplit : frames_ s = [None] ++ drop 1 (frames_ s)).
  { rewrite <- Hhead. now rewrite take_drop. }
  set (g := λ pointer : option TC, clearList <$> pointer).
  assert (Hmap : mapM (λ pointer : option TC,
                         match pointer with
                         | None => Fault NullDereference
                         | Some cache => Ret (Some (clearList cache))
                         end) (drop 1 (frames_ s))
                 = Ret (g <$> drop 1 (frames_ s))).
  { apply mapM_outcome_Ret. intros [c|] Hin; [reflexivity|].
    apply list_elem_of_lookup in Hin as [i Hi].
    rewrite lookup_drop in Hi.
    assert (Hr : (1 + i < length (frames_ s))%nat)
      by now apply lookup_lt_Some in Hi.
    apply (Hnull _ Hr) in Hi. lia. }
  assert (Hframes : ∀ id,
            (None :: (g <$> drop 1 (frames_ s))) !! id
            = g <$> (frames_ s !! id)).
  { intros id. rewrite Hsplit at 2.
    destruct id as [|id]; [reflexivity|]. simpl.
    now rewrite list_lookup_fmap. }
  unfold clear. simpl.
  destruct (Nat.ltb_spec 1 (length (frames_ s))) as [Hl|Hl].
  - rewrite Hmap. simpl. rewrite Hhead. eexists. split; [reflexivity|].
    simpl. split.
    { unfold registry_ok; simpl. split; [done|].
      rewrite length_fmap, length_drop. split; [lia|]. split; [done|].
      intros id Hid. rewrite (Hframes id).
      assert (Hid' : (id < length (frames_ s))%nat) by lia.
      destruct (frames_ s !! id) as [[c|]|] eqn:E; simpl.
      - split; [discriminate|]. intros ->.
        destruct (Hnull 0%nat Hpos) as [_ Hn]. rewrite Hn in E; done.
      - rewrite <- (Hnull id Hid'). done.
      - apply lookup_ge_None in E. lia. }
    split; [done|]. split; [done|]. split; [done|].
    split; [rewrite length_fmap, length_drop; lia|].
    split; [|done].
    intros id cache Hc. rewrite (Hframes id), Hc. reflexivity.
  - eexists. split; [reflexivity|]. simpl.
    split; [done|]. split; [done|]. split; [done|]. split; [done|].
    split; [done|]. split; [|done].
    intros id cache Hc. assert (id = 0%nat) as ->.
    { apply lookup_lt_Some in Hc. lia. }
    destruct (Hnull 0%nat Hpos) as [_ Hn]. rewrite Hn in Hc; done.
Qed.

(** X16.  [clear] on a registry in good order returns; it keeps every name,
    every number and every authority, keeps the registry in good order, and
    replaces the cache of every frame by what [clearList] makes of it. *)
Theorem clear_keeps_registry s :
  registry_ok s →
  ∃ s', clear s = Ret s'
    ∧ registry_ok s'
    ∧ frameIDs_ s' = frameIDs_ s
    ∧ frameIDs_reverse s' = frameIDs_reverse s
    ∧ frame_authority_ s' = frame_authority_ s
    ∧ length (frames_ s') = length (frames_ s)
    ∧ (∀ id cache, frames_ s !! id = Some (Some cache) →
                   frames_ s' !! id = Some (Some (clearList cache)))
    ∧ old_tf_ s' = old_clear (old_tf_ s).
Proof. apply clear_registry. Qed.

Section ClearThenLookup.

Context {bt : Type} `{!BtTransformOps bt}.
Variable MAX_GRAPH_DEPTH : nat.

(** The caches that [clearList] returns have nothing for any time. *)
Hypothesis cleared_is_empty :
  ∀ (cache : TC) (time : Time), getData (clearList cache) time = None.

(** X17.  After [clear] the names are still registered and no frame has
    data: provided that a cleared cache has nothing for any time, every
    lookup between two different registered frames other than "NO_PARENT"
    throws [tf2::ConnectivityException], not [tf2::LookupException],
    whatever was published before. *)
Theorem clear_then_lookup s s' (target source : string) (t so : nat)
    (time : Time) :
  registry_ok s →
  clear s = Ret s' →
  frameIDs_ s !! target = Some t → frameIDs_ s !! source = Some so →
  source ≠ target → target ≠ "NO_PARENT" → source ≠ "NO_PARENT" →
  ∃ what, lookupTransform MAX_GRAPH_DEPTH s' target source time
          = Throw (tf2_ConnectivityException (Some what)).
Proof.
  intros Hok Hclear Ht Hs Hne Htn Hsn.
  destruct (clear_registry s Hok)
    as (s'' & Hrun & Hok' & Hids & _ & _ & _ & Hcaches & _).
  assert (s'' = s') as -> by congruence.
  assert (Hnd : ∀ name id, frameIDs_ s !! name = Some id →
                           name ≠ "NO_PARENT" → no_data s' time id).
  { intros name id Hid Hname.
    pose proof (registry_ok_in_range _ _ _ Hok Hid) as Hrange.
    assert (Hid0 : id ≠ 0%nat).
    { intros ->. destruct Hok as (H0 & _ & Hbij & _).
      apply Hbij in H0, Hid. congruence. }
    destruct (registry_ok_cache s id Hok Hrange Hid0) as [cache Hc].
    split; [done|]. exists (clearList cache). split; [now apply Hcaches|].
    apply cleared_is_empty. }
  apply (lookupTransform_unconnected MAX_GRAPH_DEPTH s' target source t so);
    try done; try (rewrite Hids; done); eauto.
Qed.

End ClearThenLookup.

End Clear.

Section Printing.

Context {TC OT : Type} `{!TimeCacheOps TC}.

Implicit Types s : BufferCore TC OT.

(** X18.  On a registry in good order whose caches name parents that exist,
    [allFramesAsString] returns one line for every frame but "NO_PARENT", in
    the order of the numbers: the line of a registered name holds that name
    and the name of the parent of its latest sample, or "NO_PARENT" when its
    cache is empty. *)
Theorem allFramesAsString_lines s :
  registry_ok s →
  parents_in_range s →
  ∃ l, allFramesAsString s = Ret l
    ∧ length l = (length (frames_ s) - 1)%nat
    ∧ (∀ (name : string) (id : nat),
         frameIDs_ s !! name = Some id → id ≠ 0%nat →
         ∃ parent, l !! (id - 1)%nat = Some (name, parent)
                   ∧ printed_parent s id = Some parent)
    ∧ (∀ (id : nat) (cache : TC),
         frames_ s !! id = Some (Some cache) →
         getData cache Time_unset = None →
         printed_parent s id = Some "NO_PARENT").
Proof.
  intros Hok Hpar. pose proof Hok as (H0 & Hlen & Hbij & Hnull).
  assert (Hr0 : frameIDs_reverse s !! 0%nat = Some "NO_PARENT")
    by now apply Hbij.
  set (g := λ counter : nat,
              (default "" (frameIDs_reverse s !! counter),
               default "" (printed_parent s counter))).
  assert (Hline : ∀ counter, (0 < counter < length (frames_ s))%nat →
            ∃ name parent cache,
              frameIDs_reverse s !! counter = Some name
              ∧ printed_parent s counter = Some parent
              ∧ frames_ s !! counter = Some (Some cache)
              ∧ frameIDs_reverse s
                  !! match getData cache Time_unset with
                     | Some temp => frame_id_num_ temp
                     | None => 0%nat
                     end = Some parent).
  { intros counter [Hc0 Hc].
    destruct (registry_ok_cache s counter Hok Hc ltac:(lia)) as [cache Hcache].
    destruct (lookup_lt_is_Some_2 (frameIDs_reverse s) counter
                ltac:(lia)) as [name Hname].
    unfold printed_parent. rewrite Hcache.
    destruct (getData cache Time_unset) as [temp|] eqn:Hd.
    - destruct (lookup_lt_is_Some_2 (frameIDs_reverse s) (frame_id_num_ temp)
                  (Hpar _ _ _ Hcache Hd)) as [parent Hparent].
      exists name, parent, cache. now rewrite Hd.
    - exists name, "NO_PARENT", cache. now rewrite Hd. }
  exists (g <$> seq 1 (length (frames_ s) - 1)).
  split.
  { unfold allFramesAsString. apply mapM_outcome_Ret.
    intros counter Hin. apply elem_of_seq in Hin.
    destruct (Hline counter ltac:(lia))
      as (name & parent & cache & Hn & Hp & Hc & Hq).
    rewrite (getFrame_cache s counter cache ltac:(lia) Hc). simpl.
    rewrite Hn, Hq. unfold g. now rewrite Hn, Hp. }
  split; [now rewrite length_fmap, length_seq|].
  split.
  - intros name id Hid Hid0.
    pose proof (registry_ok_in_range _ _ _ Hok Hid) as Hrange.
    destruct (Hline id ltac:(lia)) as (name' & parent & _ & Hn & Hp & _).
    apply Hbij in Hid. assert (name' = name) as -> by congruence.
    exists parent. split; [|done].
    rewrite list_lookup_fmap, lookup_seq_lt by lia.
    replace (1 + (id - 1))%nat with id by lia.
    simpl. unfold g. now rewrite Hn, Hp.
  - intros id cache Hc Hd. unfold printed_parent. now rewrite Hc, Hd.
Qed.

End Printing.

Section Exceptions.

Context {TC OT bt : Type} `{!TimeCacheOps TC, !BtTransformOps bt}.
Variable MAX_GRAPH_DEPTH : nat.

Implicit Types s : BufferCore TC OT.

(** X19.  The exception of the legacy library never leaves the new
    implementation: whatever [getLatestCommonTime] and both forms of
    [lookupTransform] throw is an exception of tf2, in every buffer and for
    every cache. *)
Theorem lookupTransform_throws_tf2 s (target source fixed : string)
    (time source_time : Time) (e : exn) :
  (getLatestCommonTime MAX_GRAPH_DEPTH s source target = Throw e →
   tf2_exception e)
  ∧ (lookupTransform MAX_GRAPH_DEPTH s target source time = Throw e →
     tf2_exception e)
  ∧ (lookupTransform_fixed MAX_GRAPH_DEPTH s target time source source_time
       fixed = Throw e →
     tf2_exception e).
Proof.
  assert (Hg : ∀ a b e', getLatestCommonTime MAX_GRAPH_DEPTH s a b = Throw e' →
                         tf2_exception e').
  { intros a b e'. unfold getLatestCommonTime.
    destruct (_ ≫= _) as [r|[]|]; try discriminate.
    - destruct (decide _); [|discriminate].
      destruct (inverseTransforms _), (forwardTransforms _); discriminate.
    - intros [= <-]. done.
    - intros [= <-]. done.
    - intros [= <-]. done. }
  assert (Hw : ∀ a b t e',
            lookup_walk MAX_GRAPH_DEPTH s a b t = Throw e' → tf2_exception e').
  { intros a b t e'. unfold lookup_walk.
    destruct (t =? Time_unset).
    - destruct (getLatestCommonTime MAX_GRAPH_DEPTH s a b)
        as [[[code t0] what]|e0|] eqn:E; simpl; try discriminate.
      + destruct (decide _); [|discriminate].
        destruct (_ ≫= _) as [r|[]|]; try discriminate;
          intros [= <-]; done.
      + intros [= <-]. now apply (Hg a b).
    - simpl. destruct (_ ≫= _) as [r|[]|]; try discriminate;
        intros [= <-]; done. }
  assert (Hl : ∀ a b t e',
            lookupTransform MAX_GRAPH_DEPTH s a b t = Throw e' →
            tf2_exception e').
  { intros a b t e'. unfold lookupTransform.
    destruct (String.eqb b a); [discriminate|].
    destruct (lookup_walk MAX_GRAPH_DEPTH s a b t)
      as [[[[code t0] l] what]|e0|] eqn:E; simpl; try discriminate.
    - destruct (decide _); [intros [= <-]; done|].
      destruct (decide _); [intros [= <-]; done|].
      destruct (test_extrapolation s t0 l).
      + destruct (t =? Time_unset); intros [= <-]; done.
      + rewrite computeTransformFromList_procedure. discriminate.
    - intros [= <-]. now apply (Hw a b t). }
  split; [apply Hg|]. split; [apply Hl|].
  unfold lookupTransform_fixed.
  destruct (lookupTransform MAX_GRAPH_DEPTH s fixed source source_time)
    as [t1|e1|] eqn:E1; simpl; try discriminate.
  - destruct (lookupTransform MAX_GRAPH_DEPTH s target fixed time)
      as [t2|e2|] eqn:E2; simpl; try discriminate.
    intros [= <-]. now apply (Hl target fixed time).
  - intros [= <-]. now apply (Hl fixed source source_time).
Qed.

End Exceptions.

Section InverseLookup.

Context {TC OT bt : Type} `{!TimeCacheOps TC, !BtTransformOps bt}.
Variable MAX_GRAPH_DEPTH : nat.

Implicit Types s : BufferCore TC OT.

Lemma test_extrapolation_swap s (time : Time) (l : TransformLists) :
  test_extrapolation s time l = None →
  test_extrapolation s time (swap_lists l) = None.
Proof.
  intros Hl. destruct (test_extrapolation s time (swap_lists l)) eqn:E;
    [|done].
  exfalso.
  destruct (test_extrapolation_beyond s time (swap_lists l)) as [H _].
  destruct H as (tr & Hin & Hb); [rewrite E; eauto|].
  destruct (test_extrapolation_beyond s time l) as [_ H].
  destruct H as [x Hx]; [|congruence].
  exists tr. split; [|done]. simpl in Hin.
  rewrite elem_of_app in *. tauto.
Qed.

(** X21.  A lookup and the lookup in the opposite direction return inverse
    transforms.  For two different registered frames whose sides terminate
    at a time that is not the zero instant, with the names of the steps
    registered and the last step of each side consistent, and with the laws
    of a group: when the lookup from [b] to [a] returns the message of a
    transform [T], the lookup from [a] to [b] returns the message of the
    inverse of [T], with the same stamp and the names exchanged. *)
Theorem lookupTransform_inverse s (a b : string) (ia ib : nat) (time : Time)
    (inv fwd : list TransformStorage) (li lf : nat) (r : TransformStamped) :
  group_laws (bt:=bt) →
  time ≠ Time_unset →
  frameIDs_ s !! a = Some ia → frameIDs_ s !! b = Some ib →
  ia ≠ ib →
  walk MAX_GRAPH_DEPTH s time ib = Ret (Terminated inv li) →
  walk MAX_GRAPH_DEPTH s time ia = Ret (Terminated fwd lf) →
  is_Some (frameIDs_reverse s !! ia) →
  is_Some (frameIDs_reverse s !! ib) →
  Forall (resolves s) (inv ++ fwd) →
  (∀ i, last inv = Some i → consistent s i) →
  (∀ f, last fwd = Some f → consistent s f) →
  lookupTransform MAX_GRAPH_DEPTH s a b time = Ret r →
  ∃ T : bt,
    r = mkTransformStamped (mkHeader time a) b (transformTF2ToMsg T)
    ∧ lookupTransform MAX_GRAPH_DEPTH s b a time
      = Ret (mkTransformStamped (mkHeader time b) a
               (transformTF2ToMsg (bt_inverse T))).
Proof.
  intros laws Htime Ha Hb Hne Hwi Hwf Hra Hrb Hres Ci Cf Hret.
  assert (Hnames : a ≠ b) by congruence.
  destruct (lookupLists_swap MAX_GRAPH_DEPTH s time ia ib inv fwd li lf Hne
              Hwi Hwf Hra Hrb Hres Ci Cf)
    as (r0 & r0' & Hr & Hr' & Hcode & Hlists).
  rewrite (lookupTransform_at MAX_GRAPH_DEPTH s a b ia ib time r0 Htime
             ltac:(congruence) Ha Hb Hr) in Hret.
  rewrite (lookupTransform_at MAX_GRAPH_DEPTH s b a ib ia time r0' Htime
             Hnames Hb Ha Hr').
  rewrite Hcode, Hlists.
  destruct (decide (retval r0 = LOOKUP_ERROR)); [discriminate|].
  destruct (decide (retval r0 = CONNECTIVITY_ERROR)); [discriminate|].
  destruct (test_extrapolation s time (lists r0)) eqn:Et; [discriminate|].
  rewrite (test_extrapolation_swap s time _ Et).
  rewrite computeTransformFromList_procedure in Hret.
  rewrite computeTransformFromList_procedure. simpl in *.
  injection Hret as <-.
  exists (compose_procedure (inverseTransforms (lists r0))
            (forwardTransforms (lists r0))).
  split; [done|]. now rewrite (compose_procedure_swap laws).
Qed.

End InverseLookup.

(** ** The further properties at work on the example buffers *)

Section MoreWitnesses.

#[local] Existing Instance no_legacy.
#[local] Existing Instance no_legacy_clear.
#[local] Existing Instance list_cache_clear.
#[local] Existing Instance Examples.cache_ops.
#[local] Existing Instance Line.ops.

Import Examples.

Lemma one_link_registry_ok : registry_ok (the one_link).
Proof.
  apply (publish_registry_ok fresh (message "p" "a" 5 3));
    [apply registry_ok_new|reflexivity|reflexivity].
Qed.

Lemma islands_registry_ok : registry_ok (the islands).
Proof.
  apply (publish_registry_ok one_link (message "q" "b" 5 1));
    [exact one_link_registry_ok|reflexivity|reflexivity].
Qed.

Lemma chain3_registry_ok : registry_ok (the chain3).
Proof.
  apply (publish_registry_ok
           (publish (publish fresh (message "b" "a" 5 1))
              (message "c" "b" 5 2))
           (message "d" "c" 5 4)); [|reflexivity|reflexivity].
  apply (publish_registry_ok (publish fresh (message "b" "a" 5 1))
           (message "c" "b" 5 2)); [|reflexivity|reflexivity].
  apply (publish_registry_ok fresh (message "b" "a" 5 1));
    [apply registry_ok_new|reflexivity|reflexivity].
Qed.

Lemma fork_registry_ok : registry_ok (the fork).
Proof.
  apply (publish_registry_ok (publish fresh (message "root" "l" 5 1))
           (message "root" "r" 7 2)); [|reflexivity|reflexivity].
  apply (publish_registry_ok fresh (message "root" "l" 5 1));
    [apply registry_ok_new|reflexivity|reflexivity].
Qed.

(** *** The registry *)

(** In [chain3] the name "c" has the number 3, so 3 has the name "c"; the
    buffer has five frames, and the number 5 has no name. *)
Lemma registry_round_trip_witness :
  lookupFrameString (the chain3) 3 = Ret "c"
  ∧ lookupFrameString (the chain3) 5
    = Throw (tf2_LookupException (Some (diag_reverse 5)))
  ∧ lookupFrameNumber (the chain3) "z"
    = Throw (tf_LookupException (diag_no_frame "z")).
Proof.
  destruct (registry_round_trip (the chain3) chain3_registry_ok)
    as (Hiff & _ & Hstring & Hnumber).
  split; [apply Hiff; reflexivity|].
  split; [apply Hstring; simpl; lia|].
  apply Hnumber. reflexivity.
Defined.

(** The unknown name "z" is numbered 3 in [one_link], which has the frames 0
    to 2. *)
Lemma lookupOrInsertFrameNumber_round_trip_witness :
  ∃ s', lookupOrInsertFrameNumber (the one_link) "z" = (3%nat, s')
    ∧ lookupFrameNumber s' "z" = Ret 3%nat
    ∧ lookupFrameString s' 3 = Ret "z"
    ∧ lookupOrInsertFrameNumber s' "z" = (3%nat, s')
    ∧ lookupFrameNumber s' "a" = Ret 1%nat
    ∧ length (frames_ s') = 4%nat.
Proof.
  exists (lookupOrInsertFrameNumber (the one_link) "z").2.
  destruct (lookupOrInsertFrameNumber_round_trip (the one_link) "z" 3
              (lookupOrInsertFrameNumber (the one_link) "z").2
              one_link_registry_ok)
    as (Hnumber & Hstring & Hagain & Hkept & _ & Hnew).
  - reflexivity.
  - split; [reflexivity|]. split; [exact Hnumber|].
    split; [exact Hstring|]. split; [exact Hagain|].
    split; [apply Hkept; reflexivity|].
    destruct Hnew as (_ & Hlen & _); [reflexivity|exact Hlen].
Defined.

(** In [one_link] the frame "a" has a cache, and "NO_PARENT" has none. *)
Lemma getFrame_registered_witness :
  (∃ cache, getFrame (the one_link) 1 = Ret (Some cache))
  ∧ getFrame (the one_link) 0 = Ret None.
Proof.
  split.
  - destruct (getFrame_registered (the one_link) "a" 1 one_link_registry_ok)
      as [(Hname & _)|(_ & _ & Hcache)];
      [reflexivity|discriminate Hname|exact Hcache].
  - destruct (getFrame_registered (the one_link) "NO_PARENT" 0
                one_link_registry_ok)
      as [(_ & _ & Hnull)|(Hname & _)];
      [reflexivity|exact Hnull|now destruct Hname].
Defined.

(** The buffer [rooted], reached by two publications, is in good order. *)
Lemma reachable_registry_ok_witness : registry_ok (the rooted).
Proof. exact (reachable_registry_ok (the rooted) rooted_reachable). Defined.

(** *** Publications *)

Lemma not_rejected_q_b : ¬ rejected (message "q" "b" 5 1).
Proof. apply error_exists_false. reflexivity. Qed.

Lemma not_rejected_NO_PARENT : ¬ rejected (message "p" "NO_PARENT" 5 1).
Proof. apply error_exists_false. reflexivity. Qed.

(** A publication of "b" under "q" in [one_link] returns; a publication
    of "NO_PARENT" as a child dereferences the null cache of frame 0. *)
Lemma setTransform_total_witness :
  (∃ b s', setTransform (the one_link) (message "q" "b" 5 1) "me"
           = Ret (b, s'))
  ∧ setTransform (the one_link) (message "p" "NO_PARENT" 5 1) "me"
    = Fault NullDereference.
Proof.
  split.
  - exact (setTransform_total (the one_link) (message "q" "b" 5 1) "me"
             one_link_registry_ok not_rejected_q_b).
  - exact (setTransform_total (the one_link) (message "p" "NO_PARENT" 5 1)
             "me" one_link_registry_ok not_rejected_NO_PARENT).
Defined.

(** When the old sample of "a" is refused in [late], "a" and "p" keep the
    numbers 1 and 2. *)
Lemma setTransform_ids_stable_witness :
  (lookupFrameNumber late_then_old.2 "a" = Ret 1%nat
   ∧ lookupFrameString late_then_old.2 1 = Ret "a")
  ∧ (lookupFrameNumber late_then_old.2 "p" = Ret 2%nat
     ∧ lookupFrameString late_then_old.2 2 = Ret "p")
  ∧ (length (frames_ (the late)) ≤ length (frames_ late_then_old.2))%nat.
Proof.
  destruct (setTransform_ids_stable (the late) (message "q" "a" 1 0) "me"
              false late_then_old.2 late_registry_ok)
    as (Hkept & Hlen).
  - reflexivity.
  - split; [apply Hkept; reflexivity|].
    split; [apply Hkept; reflexivity|exact Hlen].
Defined.

(** The publication of "b" under "q" turns [one_link] into [islands]: the
    cache of "a" is the one it was, and "b", frame 3, has the authority of
    the call. *)
Lemma setTransform_touches_one_cache_witness :
  setTransform (the one_link) (message "q" "b" 5 1) "example"
  = Ret (true, the islands)
  ∧ ∃ c, lookupFrameNumber (the islands) "b" = Ret c
      ∧ frames_ (the islands) !! 1%nat = frames_ (the one_link) !! 1%nat
      ∧ frame_authority_ (the islands) !! c = Some "example"
      ∧ frame_authority_ (the islands) !! 1%nat
        = frame_authority_ (the one_link) !! 1%nat.
Proof.
  split; [reflexivity|].
  destruct (setTransform_touches_one_cache (the one_link)
              (message "q" "b" 5 1) "example" true (the islands)
              one_link_registry_ok not_rejected_q_b)
    as (c & Hc & Hother & Hauth).
  - reflexivity.
  - exists c. split; [exact Hc|].
    assert (Hc3 : c = 3%nat).
    { assert (E : Ret c = Ret 3%nat :> outcome nat)
        by (rewrite <- Hc; reflexivity).
      now injection E. }
    split; [apply Hother; [lia|simpl; lia]|].
    destruct (Hauth eq_refl) as [Hmine Hothers].
    split; [exact Hmine|]. apply Hothers. lia.
Defined.

Section Counting.

#[local] Existing Instance counting_legacy.

(** A message that is refused is handed to the legacy transformer all the
    same. *)
Lemma setTransform_feeds_legacy_witness :
  let s : BufferCore ListCache.t nat := BufferCore_new 0 10 in
  ∃ s', setTransform s (message "a" "a" 5 0) "me" = Ret (false, s')
    ∧ old_tf_ s' = 1%nat
    ∧ cache_time s' = cache_time s
    ∧ max_extrapolation_distance_ s' = 0.
Proof.
  intros s.
  destruct (setTransform s (message "a" "a" 5 0) "me") as [[[] s']| |]
    eqn:Hrun; try discriminate Hrun.
  exists s'. split; [reflexivity|].
  exact (setTransform_feeds_legacy s (message "a" "a" 5 0) "me" false s'
           Hrun).
Defined.

End Counting.

(** *** The walk in both directions *)

Lemma chain3_resolves :
  Forall (resolves (the chain3)) (drop 1 chain3_steps ++ chain3_steps).
Proof.
  repeat constructor;
    (eapply resolves_intro; [vm_compute; reflexivity|vm_compute; reflexivity]).
Qed.

(** In [chain3] the walk between "a" and "b" leaves the step of "a": it is
    the forward list in one direction and the inverse list in the other. *)
Lemma lookupLists_symmetric_witness :
  ∃ r r',
    lookupLists depth (the chain3) 1 5 2 = Ret r
    ∧ lookupLists depth (the chain3) 2 5 1 = Ret r'
    ∧ retval r' = retval r
    ∧ lists r' = swap_lists (lists r).
Proof.
  apply (lookupLists_symmetric depth (the chain3) 5 1 2
           (drop 1 chain3_steps) chain3_steps 4 4).
  - discriminate.
  - vm_compute. reflexivity.
  - vm_compute. reflexivity.
  - eexists. reflexivity.
  - eexists. reflexivity.
  - exact chain3_resolves.
  - intros i Hi. injection Hi as <-. reflexivity.
  - intros f Hf. injection Hf as <-. reflexivity.
Defined.

(** In [fork] the latest common time of "l" and "r" is the same in both
    orders. *)
Lemma getLatestCommonTime_symmetric_witness :
  ∃ code t what what',
    getLatestCommonTime depth (the fork) "l" "r" = Ret (code, t, what)
    ∧ getLatestCommonTime depth (the fork) "r" "l" = Ret (code, t, what').
Proof.
  apply (getLatestCommonTime_symmetric depth (the fork) "l" "r" 1 3
           [ListCache.tag EXACT fork_r] [ListCache.tag EXACT fork_l] 2 2).
  - reflexivity.
  - reflexivity.
  - discriminate.
  - vm_compute. reflexivity.
  - vm_compute. reflexivity.
  - eexists. reflexivity.
  - eexists. reflexivity.
  - repeat constructor;
      (eapply resolves_intro;
       [vm_compute; reflexivity|vm_compute; reflexivity]).
  - intros i Hi. injection Hi as <-. reflexivity.
  - intros f Hf. injection Hf as <-. reflexivity.
Defined.

(** With two steps on each side, one of them mirrored, the exchanged lists
    compose to the inverse of [x ↦ x + 7]. *)
Lemma computeTransformFromList_swap_witness :
  ∃ T : Line.t,
    computeTransformFromList
      (mkTransformLists [step false 3; step true 5]
         [step true 2; step false 7]) = Ret T
    ∧ computeTransformFromList
        (mkTransformLists [step true 2; step false 7]
           [step false 3; step true 5]) = Ret (bt_inverse T).
Proof.
  exact (computeTransformFromList_swap (bt:=Line.t)
           (mkTransformLists [step false 3; step true 5]
              [step true 2; step false 7])
           Line_group_laws).
Defined.

(** In [chain3] the lookup from "b" to "a" and the lookup from "a" to "b"
    return inverse transforms. *)
Lemma lookupTransform_inverse_witness :
  ∃ T : Line.t,
    lookupTransform depth (the chain3) "a" "b" 5
    = Ret (mkTransformStamped (mkHeader 5 "a") "b" (transformTF2ToMsg T))
    ∧ lookupTransform depth (the chain3) "b" "a" 5
      = Ret (mkTransformStamped (mkHeader 5 "b") "a"
               (transformTF2ToMsg (bt_inverse T))).
Proof.
  destruct (lookupTransform_inverse (bt:=Line.t) depth (the chain3)
              "a" "b" 1 2 5 (drop 1 chain3_steps) chain3_steps 4 4
              (mkTransformStamped (mkHeader 5 "a") "b"
                 (Line.to_msg (Line.mk false (-1)))))
    as (T & HT & Hinverse).
  - exact Line_group_laws.
  - discriminate.
  - reflexivity.
  - reflexivity.
  - discriminate.
  - vm_compute. reflexivity.
  - vm_compute. reflexivity.
  - eexists. reflexivity.
  - eexists. reflexivity.
  - exact chain3_resolves.
  - intros i Hi. injection Hi as <-. reflexivity.
  - intros f Hf. injection Hf as <-. reflexivity.
  - vm_compute. reflexivity.
  - exists T. split; [|exact Hinverse].
    rewrite <- HT. vm_compute. reflexivity.
Defined.

(** *** The edges of the lookup *)

(** "z" is not registered in [one_link]. *)
Lemma lookupTransform_unregistered_witness :
  (∃ what, lookupTransform (bt:=Line.t) depth (the one_link) "a" "z" 5
           = Throw (tf2_LookupException (Some what)))
  ∧ (∃ what,
       lookupTransform (bt:=Line.t) depth (the one_link) "z" "a" Time_unset
       = Throw (tf2_LookupException (Some what))).
Proof.
  split.
  - apply (lookupTransform_unregistered (bt:=Line.t) depth (the one_link)
             "a" "z" 5); [discriminate|right; reflexivity].
  - apply (lookupTransform_unregistered (bt:=Line.t) depth (the one_link)
             "z" "a" Time_unset); [discriminate|left; reflexivity].
Defined.

Lemma islands_no_data (f : nat) :
  f = 2%nat ∨ f = 4%nat → no_data (the islands) 5 f.
Proof.
  intros [->| ->]; (split; [done|]); eexists; split; reflexivity.
Qed.

(** In [islands] the parents "p" and "q" are registered and have no data. *)
Lemma lookupTransform_no_data_witness :
  ∃ what, lookupTransform (bt:=Line.t) depth (the islands) "p" "q" 5
          = Throw (tf2_ConnectivityException (Some what)).
Proof.
  apply (lookupTransform_no_data (bt:=Line.t) depth (the islands)
           "p" "q" 2 4 5).
  - exact islands_registry_ok.
  - reflexivity.
  - reflexivity.
  - discriminate.
  - apply islands_no_data. now left.
  - apply islands_no_data. now right.
Defined.

(** In [one_link] neither the lookup from "a" to "NO_PARENT" nor the one
    from "NO_PARENT" to "a" returns. *)
Lemma lookupTransform_NO_PARENT_witness :
  lookupTransform (bt:=Line.t) depth (the one_link) "a" "NO_PARENT" 5
  = Throw (tf2_LookupException (Some (diag_no_source "NO_PARENT")))
  ∧ lookupTransform (bt:=Line.t) depth (the one_link) "NO_PARENT" "a" 5
    = Throw (tf2_LookupException (Some (diag_no_target "NO_PARENT"))).
Proof.
  destruct (lookupTransform_NO_PARENT (bt:=Line.t) depth (the one_link)
              "a" 1 5 one_link_registry_ok)
    as [Hsource Htarget].
  - reflexivity.
  - discriminate.
  - discriminate.
  - split; [exact Hsource|].
    apply (Htarget [one_link_step] 2%nat). vm_compute. reflexivity.
Defined.

(** The one link of [one_link], read in both directions at instant 5. *)
Lemma lookupTransform_one_link_witness :
  lookupTransform depth (the one_link) "p" "a" 5
  = Ret (mkTransformStamped (mkHeader 5 "p") "a"
           (transformTF2ToMsg (Line.mk false 3)))
  ∧ lookupTransform depth (the one_link) "a" "p" 5
    = Ret (mkTransformStamped (mkHeader 5 "a") "p"
             (transformTF2ToMsg (Line.mk false (-3)))).
Proof.
  destruct (lookupTransform_one_link (bt:=Line.t) depth (the one_link)
              "p" "a" 2 1 5
              (ListCache.mk 0 0 [one_link_step]) one_link_step)
    as [Hdown Hup].
  - exact one_link_registry_ok.
  - reflexivity.
  - reflexivity.
  - discriminate.
  - reflexivity.
  - reflexivity.
  - reflexivity.
  - reflexivity.
  - discriminate.
  - split; [done|]. eexists. split; reflexivity.
  - vm_compute. intros [H|H]; discriminate H.
  - split; [rewrite Hdown|rewrite Hup]; vm_compute; reflexivity.
Defined.

(** *** Clearing and printing *)

(** [chain3] after [clear]: the names and the numbers are kept and the
    cache of "a" is the cleared one. *)
Lemma clear_keeps_registry_witness :
  ∃ s', clear (the chain3) = Ret s'
    ∧ registry_ok s'
    ∧ lookupFrameNumber s' "c" = Ret 3%nat
    ∧ length (frames_ s') = 5%nat
    ∧ frames_ s' !! 1%nat
      = Some (Some (clearList
                      (ListCache.mk 0 0
                         [TransformStorage_of (message "b" "a" 5 1) 2]))).
Proof.
  destruct (clear_keeps_registry (the chain3) chain3_registry_ok)
    as (s' & Hrun & Hok & Hids & _ & _ & Hlen & Hcaches & _).
  exists s'. split; [exact Hrun|]. split; [exact Hok|].
  split; [unfold lookupFrameNumber; rewrite Hids; reflexivity|].
  split; [rewrite Hlen; reflexivity|].
  apply Hcaches. reflexivity.
Defined.

Lemma list_cache_cleared (cache : ListCache.t) (time : Time) :
  getData (clearList cache) time = None.
Proof. reflexivity. Qed.

(** After [clear] the lookup between "a" and "d" of [chain3], which
    returned before, finds the frames unconnected. *)
Lemma clear_then_lookup_witness :
  (∃ r, lookupTransform (bt:=Line.t) depth (the chain3) "a" "d" 5 = Ret r)
  ∧ ∃ s' what,
      clear (the chain3) = Ret s'
      ∧ lookupTransform (bt:=Line.t) depth s' "a" "d" 5
        = Throw (tf2_ConnectivityException (Some what)).
Proof.
  split; [eexists; vm_compute; reflexivity|].
  destruct (clear (the chain3)) as [s'| |] eqn:Hrun;
    try (vm_compute in Hrun; discriminate Hrun).
  exists s'.
  destruct (clear_then_lookup (bt:=Line.t) depth
              list_cache_cleared (the chain3) s' "a" "d" 1 4 5
              chain3_registry_ok Hrun)
    as [what Hwhat];
    [reflexivity|reflexivity|discriminate|discriminate|discriminate|].
  exists what. split; [reflexivity|exact Hwhat].
Defined.

Lemma chain3_parents_in_range : parents_in_range (the chain3).
Proof.
  intros id cache temp Hcache Hdata.
  destruct id as [|[|[|[|[|id]]]]]; simpl in Hcache;
    try discriminate Hcache;
    injection Hcache as <-; vm_compute in Hdata;
    first [discriminate Hdata|injection Hdata as <-; simpl; lia].
Qed.

(** [chain3] is printed as four lines, the last one for "d", which has no
    parent. *)
Lemma allFramesAsString_lines_witness :
  ∃ l, allFramesAsString (the chain3) = Ret l
    ∧ length l = 4%nat
    ∧ l !! 1%nat = Some ("b", "c")
    ∧ l !! 3%nat = Some ("d", "NO_PARENT").
Proof.
  destruct (allFramesAsString_lines (the chain3) chain3_registry_ok
              chain3_parents_in_range)
    as (l & Hrun & Hlen & Hline & _).
  exists l. split; [exact Hrun|]. split; [exact Hlen|].
  split.
  - destruct (Hline "b" 2%nat) as (parent & Hl & Hp);
      [reflexivity|discriminate|].
    simpl in Hl. rewrite Hl. vm_compute in Hp. now injection Hp as <-.
  - destruct (Hline "d" 4%nat) as (parent & Hl & Hp);
      [reflexivity|discriminate|].
    simpl in Hl. rewrite Hl. vm_compute in Hp. now injection Hp as <-.
Defined.

End MoreWitnesses.

(** ** The lookup along a chain *)

Section ChainLookup.

Context {TC OT bt : Type} `{!TimeCacheOps TC, !BtTransformOps bt}.
Variable MAX_GRAPH_DEPTH : nat.

Implicit Types s : BufferCore TC OT.

Lemma test_extrapolation_within s (time : Time) (lists : TransformLists) :
  (∀ tr, tr ∈ inverseTransforms lists ++ forwardTransforms lists →
         ¬ beyond_limit (max_extrapolation_distance_ s) time tr) →
  test_extrapolation s time lists = None.
Proof.
  intros Hlim. destruct (test_extrapolation s time lists) eqn:E; [|done].
  exfalso.
  destruct (test_extrapolation_beyond s time lists) as [H _].
  destruct H as (tr & Hin & Hb); [rewrite E; eauto|].
  exact (Hlim tr Hin Hb).
Qed.

(** X22.  The lookup between a frame and the root of its chain.  Let the
    caches link, at a time that is not the zero instant, the steps [steps]
    from the frame [child] up to the frame [root], which has no data; let
    there be at most [MAX_GRAPH_DEPTH + 1] steps, all within the
    extrapolation limit, and let the last one name [root] as its parent.
    Then the lookup with [root] as target returns the composition of the
    steps, which is their product from the root down under the laws of a
    group, and the lookup with [child] as target returns the composition of
    the exchanged lists, the inverse of that product. *)
Theorem lookupTransform_to_root s (root child : string) (p c : nat)
    (time : Time) (steps : list TransformStorage) (top : TransformStorage) :
  registry_ok s →
  frameIDs_ s !! root = Some p → frameIDs_ s !! child = Some c →
  time ≠ Time_unset → p ≠ c →
  linked s time c steps p → no_data s time p →
  (length steps ≤ S MAX_GRAPH_DEPTH)%nat →
  last steps = Some top → ts_frame_id top = root →
  (∀ tr, tr ∈ steps →
         ¬ beyond_limit (max_extrapolation_distance_ s) time tr) →
  lookupTransform MAX_GRAPH_DEPTH s root child time
  = Ret (mkTransformStamped (mkHeader time root) child
           (transformTF2ToMsg (compose_procedure steps [])))
  ∧ lookupTransform MAX_GRAPH_DEPTH s child root time
    = Ret (mkTransformStamped (mkHeader time child) root
             (transformTF2ToMsg (compose_procedure [] steps)))
  ∧ (group_laws (bt:=bt) →
     compose_procedure steps [] = product_parent_first steps
     ∧ compose_procedure [] steps
       = bt_inverse (product_parent_first steps)).
Proof.
  intros Hok Hp Hc Htime Hpc Hlink Hnd Hlen Hlast Hname Hlim.
  pose proof Hok as (H0 & Hlenr & Hbij & Hnull).
  assert (Hnames : root ≠ child) by congruence.
  assert (Hrp : frameIDs_reverse s !! p = Some root) by now apply Hbij.
  assert (Hrc : frameIDs_reverse s !! c = Some child) by now apply Hbij.
  assert (Hwc : walk MAX_GRAPH_DEPTH s time c = Ret (Terminated steps p)).
  { unfold walk.
    rewrite (walk_loop_linked MAX_GRAPH_DEPTH s time c steps p Hlink Hnd)
      by (simpl; lia).
    reflexivity. }
  assert (Hwp : walk MAX_GRAPH_DEPTH s time p = Ret (Terminated [] p))
    by now apply walk_no_data.
  assert (Hrev : ∃ rest, reverse steps = top :: rest).
  { destruct (reverse steps) as [|x rest] eqn:E.
    - apply reverse_nil_inv in E. subst steps. discriminate.
    - destruct (reverse_cons_last _ _ _ E) as [Hx _].
      exists rest. congruence. }
  destruct Hrev as [rest Hrev].
  split; [|split].
  - assert (Hl : lookupLists MAX_GRAPH_DEPTH s p time c
                 = Ret (mkLookupResult NO_ERROR (mkTransformLists steps [])
                          None)).
    { rewrite (lookupLists_terminated MAX_GRAPH_DEPTH s time p c
                 steps [] p p Hpc Hwc Hwp).
      unfold connect, lookupFrameString. rewrite Hrp, Hrc. simpl.
      rewrite Hrev, Hname, (lookupFrameNumber_Some _ _ _ Hp). simpl.
      now rewrite Nat.eqb_refl. }
    rewrite (lookupTransform_at MAX_GRAPH_DEPTH s root child p c time _
               Htime ltac:(congruence) Hp Hc Hl).
    simpl. rewrite test_extrapolation_within.
    + now rewrite computeTransformFromList_procedure.
    + simpl. intros tr Hin. rewrite app_nil_r in Hin. now apply Hlim.
  - assert (Hl : lookupLists MAX_GRAPH_DEPTH s c time p
                 = Ret (mkLookupResult NO_ERROR (mkTransformLists [] steps)
                          None)).
    { rewrite (lookupLists_terminated MAX_GRAPH_DEPTH s time c p
                 [] steps p p ltac:(congruence) Hwp Hwc).
      unfold connect, lookupFrameString. rewrite Hrp, Hrc. simpl.
      rewrite Hrev. simpl. now rewrite Nat.eqb_refl. }
    rewrite (lookupTransform_at MAX_GRAPH_DEPTH s child root c p time _
               Htime Hnames Hc Hp Hl).
    simpl. rewrite test_extrapolation_within.
    + now rewrite computeTransformFromList_procedure.
    + simpl. intros tr Hin. now apply Hlim.
  - intros laws. pose proof laws as (_ & idl & idr & _).
    unfold compose_procedure, product_parent_first. simpl.
    rewrite (foldl_mul_product laws), (foldl_inverse_product laws).
    now rewrite idl, idr.
Qed.

End ChainLookup.

Section ChainWitness.

#[local] Existing Instance no_legacy.
#[local] Existing Instance Examples.cache_ops.
#[local] Existing Instance Line.ops.

Import Examples.

(** In [chain3] the steps of "a", "b" and "c" shift by 1, 2 and 4: the
    lookup from "a" to the root "d" shifts by 7 and the lookup back by -7. *)
Lemma lookupTransform_to_root_witness :
  lookupTransform depth (the chain3) "d" "a" 5
  = Ret (mkTransformStamped (mkHeader 5 "d") "a"
           (transformTF2ToMsg (Line.mk false 7)))
  ∧ lookupTransform depth (the chain3) "a" "d" 5
    = Ret (mkTransformStamped (mkHeader 5 "a") "d"
             (transformTF2ToMsg (Line.mk false (-7))))
  ∧ product_parent_first chain3_steps = Line.mk false 7.
Proof.
  destruct (lookupTransform_to_root (bt:=Line.t) depth (the chain3)
              "d" "a" 4 1 5 chain3_steps
              (TransformStorage_of (message "d" "c" 5 4) 4)
              chain3_registry_ok)
    as (Hdown & Hup & Hproduct).
  - reflexivity.
  - reflexivity.
  - discriminate.
  - discriminate.
  - exact chain3_linked.
  - exact chain3_no_data.
  - simpl. unfold depth. lia.
  - reflexivity.
  - reflexivity.
  - intros tr Hin.
    repeat (apply elem_of_cons in Hin as [->|Hin];
            [vm_compute; intros [H|H]; discriminate H|]).
    inversion Hin.
  - split; [rewrite Hdown; vm_compute; reflexivity|].
    split; [rewrite Hup; vm_compute; reflexivity|].
    destruct (Hproduct Line_group_laws) as [<- _]. vm_compute. reflexivity.
Defined.

End ChainWitness.
